(** * Nexus membership keys: the key codec and the QR presentation adapter

    A shallow embedding of
    [membership-initiation/backend/utils/membership_key_system.py] and
    [membership-initiation/backend/utils/qr_code_generator.py].

    Python strings are sequences of Unicode code points, so [str] is a list
    of integers and [ord] is the identity.  Exceptions are values of
    [result].  The process-wide generator of the [random] module is an
    explicit state that the encoder threads through its calls. *)

From Stdlib Require Import String Ascii.
From Stdlib Require Import ZArith List Lia Bool.
Import ListNotations.
Open Scope Z_scope.

(** ** Strings and exceptions *)

Definition char := Z.
Definition str := list char.

(** An ASCII literal of the source as a [str]. *)
Definition lit (s : String.string) : str :=
  map (fun a => Z.of_N (Ascii.N_of_ascii a)) (String.list_ascii_of_string s).
Arguments lit s%_string.

Definition len {A} (s : list A) : Z := Z.of_nat (length s).

Fixpoint str_eqb (a b : str) : bool :=
  match a, b with
  | [], [] => true
  | x :: a', y :: b' => (x =? y) && str_eqb a' b'
  | _, _ => false
  end.

Inductive exn :=
  KeyError | IndexError | ValueError | UnicodeEncodeError | OverflowError | OSError.

Inductive result (A : Type) :=
| Ok (a : A)
| Raise (e : exn).
Arguments Ok {A} a.
Arguments Raise {A} e.

Definition rbind {A B} (r : result A) (k : A -> result B) : result B :=
  match r with
  | Ok a => k a
  | Raise e => Raise e
  end.

Declare Scope result_scope.
Delimit Scope result_scope with result.
Notation "x <- r ;; k" := (rbind r (fun x => k))
  (at level 61, r at next level, right associativity) : result_scope.

(** [s[i]]: a negative index counts from the end, an index out of range
    raises [IndexError]. *)
Definition getitem (s : str) (i : Z) : result char :=
  let j := if i <? 0 then i + len s else i in
  if (0 <=? j) && (j <? len s) then Ok (nth (Z.to_nat j) s 0)
  else Raise IndexError.

(** [s[lo:hi]]: bounds are clamped, a negative bound counts from the end. *)
Definition clamp (n i : Z) : Z :=
  if i <? 0 then Z.max 0 (i + n) else Z.min i n.

Definition slice (lo hi : option Z) (s : str) : str :=
  let a := match lo with None => 0 | Some i => clamp (len s) i end in
  let b := match hi with None => len s | Some j => clamp (len s) j end in
  firstn (Z.to_nat (b - a)) (skipn (Z.to_nat a) s).

Fixpoint startswith (s p : str) {struct p} : bool :=
  match p with
  | [] => true
  | x :: p' =>
      match s with
      | y :: s' => (x =? y) && startswith s' p'
      | [] => false
      end
  end.

(** [c in s] for a one-character [c]. *)
Definition contains (s : str) (c : char) : bool := existsb (Z.eqb c) s.

(** [s.split(sep)] for a one-character separator. *)
Fixpoint split (sep : char) (s : str) : list str :=
  match s with
  | [] => [[]]
  | c :: r =>
      if c =? sep then [] :: split sep r
      else match split sep r with
           | p :: ps => (c :: p) :: ps
           | [] => [[c]]
           end
  end.

(** [seq.index(c)] for a one-character [c]: [ValueError] when absent. *)
Fixpoint index_from (i : Z) (s : str) (c : char) : result Z :=
  match s with
  | [] => Raise ValueError
  | x :: r => if x =? c then Ok i else index_from (i + 1) r c
  end.
Definition index (s : str) (c : char) : result Z := index_from 0 s c.

Definition ascii_uppercase : str := lit "ABCDEFGHIJKLMNOPQRSTUVWXYZ".
Definition digits : str := lit "0123456789".

(** ** Integer formatting: the format specs [X] and [02X] *)

Definition hex_digit (d : Z) : char := nth (Z.to_nat d) (lit "0123456789ABCDEF") 0.

Fixpoint hex_loop (fuel : nat) (n : Z) (acc : str) : str :=
  match fuel with
  | O => acc
  | S f => if n <? 16 then hex_digit n :: acc
           else hex_loop f (n / 16) (hex_digit (n mod 16) :: acc)
  end.

(** Upper-case hexadecimal digits of a natural number, most significant
    first, ["0"] for zero. *)
Definition hex_upper (n : Z) : str := hex_loop (S (Z.to_nat (Z.log2 n))) n [].

(** [format(n, "0<width>X")], and [format(n, "X")] at [width = 0]: the
    sign, then zeros up to the width, then the digits. *)
Definition format_X (width : nat) (n : Z) : str :=
  let sign := if n <? 0 then lit "-" else [] in
  let ds := hex_upper (Z.abs n) in
  sign ++ repeat 48 (width - length sign - length ds) ++ ds.

(** ** Dates *)

Record datetime := {
  year : Z; month : Z; day : Z;
  hour : Z; minute : Z; second : Z; microsecond : Z
}.

Definition is_leap (y : Z) : bool :=
  (y mod 4 =? 0) && (negb (y mod 100 =? 0) || (y mod 400 =? 0)).

Definition days_in_month (y m : Z) : Z :=
  if m =? 2 then (if is_leap y then 29 else 28)
  else if (m =? 4) || (m =? 6) || (m =? 9) || (m =? 11) then 30
  else 31.

(** The values a [datetime] object can hold. *)
Definition valid_date (d : datetime) : Prop :=
  1 <= year d <= 9999 /\ 1 <= month d <= 12 /\
  1 <= day d <= days_in_month (year d) (month d).

(** ** The codec: checksum and time signature *)

Definition encode_timestamp (date : datetime) : str :=
  let year := year date mod 100 in
  let month := month date in
  let day := day date in
  format_X 2 year ++ format_X 0 month ++ format_X 2 day.

Definition enumerate (s : str) : list (Z * char) :=
  combine (map Z.of_nat (seq 0 (length s))) s.

Definition sum (l : list Z) : Z := fold_left Z.add l 0.

Definition weighted_sum (input_str : str) : Z :=
  sum (map (fun '(i, c) => c * (i + 1)) (enumerate input_str)).

Definition calculate_checksum (input_str : str) : str :=
  let s := weighted_sum input_str in
  format_X 0 (s mod 36) ++ format_X 0 ((s * 13) mod 36).

(** ** Character classes and case mapping *)

Definition is_ascii (c : char) : bool := (0 <=? c) && (c <? 128).

(** [str.isspace] on one code point: the white space at which [split()]
    cuts. *)
Definition isspace (c : char) : bool :=
  ((9 <=? c) && (c <=? 13)) || ((28 <=? c) && (c <=? 32)) ||
  (c =? 133) || (c =? 160) || (c =? 5760) ||
  ((8192 <=? c) && (c <=? 8202)) ||
  (c =? 8232) || (c =? 8233) || (c =? 8239) || (c =? 8287) || (c =? 12288).

Definition ascii_upper (c : char) : char :=
  if (97 <=? c) && (c <=? 122) then c - 32 else c.

Definition ascii_lower (c : char) : char :=
  if (65 <=? c) && (c <=? 90) then c + 32 else c.

(** The part of the Unicode character database the program reaches through
    [str.upper], [str.lower] and [int]: the case mappings of strings that
    hold a code point outside ASCII, and the decimal digit value of a code
    point outside ASCII. *)
Class Unicode := {
  unicode_upper : str -> str;
  unicode_lower : str -> str;
  unicode_decimal : char -> option Z
}.

(** [hashlib.sha256(b).digest()] as a function from bytes to bytes. *)
Class Sha256 := { sha256 : list Z -> list Z }.

(** The generator behind the module-level functions of [random]:
    [random.seed(a)] replaces the state by one that depends on [a] alone,
    a draw below [n] returns an index and the next state. *)
Class Random := {
  rng_state : Type;
  seed_state : str -> rng_state;
  randbelow : rng_state -> Z -> Z * rng_state;
  randbelow_range : forall st n, 0 < n -> 0 <= fst (randbelow st n) < n
}.

(** [str(d.timestamp())]: the POSIX time of the naive date [d], read in
    the time zone the process runs in and printed as a float.  An instance
    is one such time zone.  [datetime.timestamp] is not defined for every
    date: it raises [ValueError] when the conversion leaves the years 1 to
    9999 (["year 0 is out of range"] for [datetime(1, 1, 1)] under UTC,
    ["year 10000 is out of range"] at the end of 9999 east of UTC), and
    [OverflowError] or [OSError] where the [localtime] of the platform
    refuses the time.  It raises nothing else. *)
Class Clock := {
  timestamp_str : datetime -> result str;
  timestamp_raises : forall d e, timestamp_str d = Raise e ->
                       e = ValueError \/ e = OverflowError \/ e = OSError
}.

Section Codec.
Context {U : Unicode} {H : Sha256} {R : Random} {K : Clock}.

Definition upper (s : str) : str :=
  if forallb is_ascii s then map ascii_upper s else unicode_upper s.

Definition lower (s : str) : str :=
  if forallb is_ascii s then map ascii_lower s else unicode_lower s.

(** [s.split()]: the maximal runs of characters that are not white space;
    [cur] is the run being read, latest character first. *)
Fixpoint split_ws_from (cur : str) (s : str) : list str :=
  match s with
  | [] => match cur with [] => [] | _ => [rev cur] end
  | c :: r =>
      if isspace c
      then match cur with [] => split_ws_from [] r | _ => rev cur :: split_ws_from [] r end
      else split_ws_from (c :: cur) r
  end.
Definition split_ws (s : str) : list str := split_ws_from [] s.

(** ** The tier table *)

Record Tier := { id : Z; name : str; separator : char; prefix : str }.

(** The dict [USER_TIERS] in insertion order.  Every separator of the
    table is a string of one code point and is kept as that code point. *)
Definition USER_TIERS : list (str * Tier) :=
  [ (lit "ARCHIVIST",
      {| id := 1; name := lit "Archivist"; separator := 45; prefix := lit "ARK" |});
    (lit "ORCHESTRATOR",
      {| id := 2; name := lit "Orchestrator"; separator := 58; prefix := lit "ORC" |});
    (lit "GODFATHER",
      {| id := 3; name := lit "Godfather"; separator := 8734; prefix := lit "GOD" |});
    (lit "ENTITY",
      {| id := 4; name := lit "Entity"; separator := 10209; prefix := lit "NXS" |}) ].

Definition SPECIAL_CHARS : str := lit "!@#$%^&*~=-_+[]{}|;:,./<>?".

(** [d.get(k)] on a dict kept as an association list. *)
Fixpoint lookup {V} (d : list (str * V)) (k : str) : option V :=
  match d with
  | [] => None
  | (k', v) :: r => if str_eqb k k' then Some v else lookup r k
  end.

(** ** Encoding *)

(** [s.encode()]: UTF-8, which refuses surrogate code points. *)
Definition utf8_char (c : char) : result (list Z) :=
  if c <? 128 then Ok [c]
  else if c <? 2048 then Ok [192 + c / 64; 128 + c mod 64]
  else if (55296 <=? c) && (c <=? 57343) then Raise UnicodeEncodeError
  else if c <? 65536
       then Ok [224 + c / 4096; 128 + (c / 64) mod 64; 128 + c mod 64]
  else Ok [240 + c / 262144; 128 + (c / 4096) mod 64;
           128 + (c / 64) mod 64; 128 + c mod 64].

Fixpoint encode (s : str) : result (list Z) :=
  match s with
  | [] => Ok []
  | c :: r => (b <- utf8_char c ;; bs <- encode r ;; Ok (b ++ bs))%result
  end.

Definition hex_digit_lower (d : Z) : char :=
  nth (Z.to_nat d) (lit "0123456789abcdef") 0.

Definition hexdigest (bytes : list Z) : str :=
  flat_map (fun b => [hex_digit_lower ((b / 16) mod 16); hex_digit_lower (b mod 16)])
           bytes.

Definition create_user_hash (user_id : str) : result str :=
  (b <- encode user_id ;;
   let h := hexdigest (sha256 b) in
   Ok (upper (slice None (Some 6) h)))%result.

Definition encode_tier (tier_id : Z) : result char :=
  getitem ascii_uppercase (tier_id - 1).

(** Programs that use the generator of [random]. *)
Definition M (A : Type) : Type := rng_state -> result A * rng_state.

Definition ret {A} (a : A) : M A := fun st => (Ok a, st).
Definition lift {A} (r : result A) : M A := fun st => (r, st).
Definition bind {A B} (m : M A) (k : A -> M B) : M B :=
  fun st => match m st with
            | (Ok a, st') => k a st'
            | (Raise e, st') => (Raise e, st')
            end.

Declare Scope prog_scope.
Delimit Scope prog_scope with prog.
Notation "x <- m ;; k" := (bind m (fun x => k))
  (at level 61, m at next level, right associativity) : prog_scope.

(** [random.seed(a)] and [random.choice(seq)]; the program draws from
    sequences that are not empty. *)
Definition seed (a : str) : M unit := fun _ => (Ok tt, seed_state a).

Definition choice (seq : str) : M char :=
  fun st => let (i, st') := randbelow st (len seq) in
            (Ok (nth (Z.to_nat i) seq 0), st').

Definition range (n : nat) : list Z := map Z.of_nat (List.seq 0 n).

Fixpoint pattern_loop (chars : str) (indices : list Z) (pattern : str) : M str :=
  match indices with
  | [] => ret pattern
  | i :: rest =>
      (c <- (if i mod 4 =? 3 then choice SPECIAL_CHARS else choice chars) ;;
       pattern_loop chars rest (pattern ++ [c]))%prog
  end.

Definition generate_unique_pattern (seed_value : str) : M str :=
  (_ <- seed seed_value ;;
   let chars := ascii_uppercase ++ digits in
   pattern_loop chars (range 12) [])%prog.

Fixpoint mapM {A B} (f : A -> result B) (l : list A) : result (list B) :=
  match l with
  | [] => Ok []
  | a :: r => (b <- f a ;; bs <- mapM f r ;; Ok (b :: bs))%result
  end.

Definition dict := list (str * str).

Definition generate_personal_element (user_attributes : option dict) (user_id : str)
  : result str :=
  match match user_attributes with
        | Some d => lookup d (lit "name")
        | None => None
        end with
  | Some full_name =>
      let parts := split_ws full_name in
      (initials <- mapM (fun p => c <- getitem p 0 ;; Ok (upper [c])) (firstn 2 parts) ;;
       Ok (concat initials))%result
  | None =>
      (h <- create_user_hash user_id ;; Ok (slice None (Some 2) h))%result
  end.

Definition format_key (segmentA segmentB segmentC segmentD personalElement checksum : str)
  (tier : Tier) : str :=
  segmentA ++ [separator tier] ++ segmentB ++ [separator tier] ++ segmentC ++
  [separator tier] ++ segmentD ++ personalElement ++ [separator tier] ++ checksum.

Definition generate_membership_key (user_id tier_name : str)
  (registration_date : datetime) (user_attributes : option dict) : M str :=
  (tier <- lift (match lookup USER_TIERS (upper tier_name) with
                 | Some t => Ok t
                 | None => Raise KeyError
                 end) ;;
   user_hash <- lift (create_user_hash user_id) ;;
   tier_identifier <- lift (encode_tier (id tier)) ;;
   let time_signature := encode_timestamp registration_date in
   timestamp <- lift (timestamp_str registration_date) ;;
   unique_pattern <- generate_unique_pattern (user_id ++ timestamp) ;;
   let segmentA := prefix tier ++ slice None (Some 3) user_hash in
   let segmentB := tier_identifier :: slice None (Some 4) unique_pattern in
   let segmentC := time_signature in
   let segmentD := slice (Some 4) (Some 8) unique_pattern in
   personal_element <- lift (generate_personal_element user_attributes user_id) ;;
   let base_key := segmentA ++ segmentB ++ segmentC ++ segmentD ++ personal_element in
   let checksum := calculate_checksum base_key in
   ret (format_key segmentA segmentB segmentC segmentD personal_element checksum tier))%prog.

(** The generator after [random.seed(a)] and the twelve draws of the
    pattern. *)
Definition state_after_pattern (a : str) : rng_state :=
  snd (pattern_loop (ascii_uppercase ++ digits) (range 12) [] (seed_state a)).

End Codec.

(** ** Decoding *)

Section Decode.
Context {U : Unicode}.

(** The white space of C's [isspace], which [int] skips around a number. *)
Definition c_isspace (c : char) : bool := ((9 <=? c) && (c <=? 13)) || (c =? 32).

(** What [int] does to a string before it reads it: ASCII stays, other
    white space becomes a blank, another decimal digit becomes its ASCII
    digit and anything else a question mark. *)
Definition to_ascii_digit (c : char) : char :=
  if c <? 128 then c
  else if isspace c then 32
  else match unicode_decimal c with
       | Some d => 48 + d
       | None => 63
       end.

Definition digit_value (c : char) : option Z :=
  if (48 <=? c) && (c <=? 57) then Some (c - 48)
  else if (97 <=? c) && (c <=? 102) then Some (c - 87)
  else if (65 <=? c) && (c <=? 70) then Some (c - 55)
  else None.

Fixpoint drop_while (p : char -> bool) (s : str) : str :=
  match s with
  | c :: r => if p c then drop_while p r else s
  | [] => []
  end.

(** The digits of the number, single underscores allowed between them;
    returns the value and what follows the number. *)
Fixpoint digits_loop (s : str) (prev_underscore : bool) (acc : Z) : option (Z * str) :=
  match s with
  | c :: r =>
      if c =? 95 then (if prev_underscore then None else digits_loop r true acc)
      else match digit_value c with
           | Some d => digits_loop r false (acc * 16 + d)
           | None => if prev_underscore then None else Some (acc, s)
           end
  | [] => if prev_underscore then None else Some (acc, [])
  end.

(** [int(s, 16)], [None] for [ValueError]. *)
Definition int16 (s : str) : option Z :=
  let s := drop_while c_isspace (map to_ascii_digit s) in
  let '(sign, s) := match s with
                    | 43 :: r => (1, r)
                    | 45 :: r => (-1, r)
                    | _ => (1, s)
                    end in
  let s := match s with
           | 48 :: x :: r =>
               if (x =? 120) || (x =? 88)
               then match r with 95 :: r' => r' | _ => r end
               else s
           | _ => s
           end in
  match s with
  | c :: _ =>
      match digit_value c with
      | None => None
      | Some _ =>
          match digits_loop s false 0 with
          | Some (v, rest) =>
              match drop_while c_isspace rest with
              | [] => Some (sign * v)
              | _ => None
              end
          | None => None
          end
      end
  | [] => None
  end.

(** [datetime(year, month, day)], [None] when the constructor raises. *)
Definition make_datetime (y m d : Z) : option datetime :=
  if (1 <=? y) && (y <=? 9999) && (1 <=? m) && (m <=? 12) &&
     (1 <=? d) && (d <=? days_in_month y m)
  then Some {| year := y; month := m; day := d;
               hour := 0; minute := 0; second := 0; microsecond := 0 |}
  else None.

(** The [try] block of the decoder: any exception gives [None]. *)
Definition decode_timestamp (time_signature : str) : option datetime :=
  match int16 (slice None (Some 2) time_signature) with
  | None => None
  | Some y =>
      match getitem time_signature 2 with
      | Raise _ => None
      | Ok c =>
          match int16 [c] with
          | None => None
          | Some month =>
              match int16 (slice (Some 3) None time_signature) with
              | None => None
              | Some day => make_datetime (y + 2000) month day
              end
          end
      end
  end.

(** The dict the decoder returns: an error message, or the decoded
    fields. *)
Inductive validation :=
| Invalid (error : str)
| Valid (user_id tier_name : str) (tier_level : Z)
        (registration_date : option datetime) (personal_element : str).

Definition valid (v : validation) : bool :=
  match v with
  | Valid _ _ _ _ _ => true
  | Invalid _ => false
  end.

(** The [for ... break ... else] loop over the table. *)
Definition find_tier (membership_key : str) : option (str * Tier) :=
  find (fun '(_, tier) => startswith membership_key (prefix tier) &&
                          contains membership_key (separator tier))
       USER_TIERS.

Definition validate_membership_key (membership_key : str) : result validation :=
  match find_tier membership_key with
  | None => Ok (Invalid (lit "Unknown key format"))
  | Some (name, tier) =>
      match split (separator tier) membership_key with
      | [segmentA; segmentB; segmentC; segmentD_personal; checksum] =>
          let segmentD := slice None (Some (-2)) segmentD_personal in
          let personal_element := slice (Some (-2)) None segmentD_personal in
          let reconstructed :=
            segmentA ++ segmentB ++ segmentC ++ segmentD ++ personal_element in
          let calculated_checksum := calculate_checksum reconstructed in
          if negb (str_eqb checksum calculated_checksum)
          then Ok (Invalid (lit "Invalid checksum"))
          else
            (tier_identifier <- getitem segmentB 0 ;;
             position <- index ascii_uppercase tier_identifier ;;
             let extracted_tier_id := position + 1 in
             if negb (extracted_tier_id =? id tier)
             then Ok (Invalid (lit "Tier identifier mismatch"))
             else
               let user_hash_part := slice (Some 3) None segmentA in
               let registration_date := decode_timestamp segmentC in
               let user_id := lit "user_" ++ user_hash_part in
               Ok (Valid user_id name (id tier) registration_date personal_element))%result
      | _ => Ok (Invalid (lit "Invalid key structure"))
      end
  end.

(** ** The presentation adapter *)

Record qr_data := { membershipKey : str; validationURL : str; tier : str }.

Record visual_style := {
  style : str; mainColor : str; patternComplexity : Z; tierLevel : Z
}.

Inductive qr_result :=
| QrFailure (error : str) (details : option str)
| QrSuccess (qrCodeData : qr_data) (visualParameters : visual_style)
            (tierName : str) (tier_level : Z).

Definition color_map : list (str * str) :=
  [ (lit "ARCHIVIST", lit "#3A86FF");
    (lit "ORCHESTRATOR", lit "#8338EC");
    (lit "GODFATHER", lit "#FF006E");
    (lit "ENTITY", lit "#FFBE0B") ].

Definition _get_tier_color (tier_name : str) : str :=
  match lookup color_map tier_name with
  | Some c => c
  | None => lit "#10b981"
  end.

Definition generate_premium_qr_code (membership_key : str) (user_data : option dict)
  : result qr_result :=
  (validation <- validate_membership_key membership_key ;;
   match validation with
   | Invalid error => Ok (QrFailure (lit "Invalid membership key") (Some error))
   | Valid user_id tier_name tier_level _ _ =>
       let qr_data :=
         {| membershipKey := membership_key;
            validationURL := lit "https://nexus.io/validate/" ++ membership_key;
            tier := tier_name |} in
       let visual_style :=
         {| style := lower tier_name;
            mainColor := _get_tier_color tier_name;
            patternComplexity := Z.min (tier_level * 2) 10;
            tierLevel := tier_level |} in
       Ok (QrSuccess qr_data visual_style tier_name tier_level)
   end)%result.

End Decode.

(** The database that knows no code point outside ASCII: case mappings
    leave such strings alone and no such code point is a digit. *)
Definition ascii_only : Unicode :=
  {| unicode_upper := fun s => s;
     unicode_lower := fun s => s;
     unicode_decimal := fun _ => None |}.

(** ** The checksum as the specification words it *)

Definition base36_digit (d : Z) : char :=
  nth (Z.to_nat d) (lit "0123456789ABCDEFGHIJKLMNOPQRSTUVWXYZ") 0.

(** Two characters, one base-36 digit for each residue. *)
Definition checksum_spec (input_str : str) : str :=
  let s := weighted_sum input_str in
  [base36_digit (s mod 36); base36_digit ((s * 13) mod 36)].

(** The rendering the format spec [X] gives a residue below 256. *)
Definition hex_render (r : Z) : str :=
  if r <? 16 then [hex_digit r] else [hex_digit (r / 16); hex_digit (r mod 16)].

Definition is_hex_upper (c : char) : bool :=
  ((48 <=? c) && (c <=? 57)) || ((65 <=? c) && (c <=? 70)).

Definition is_hex_lower (c : char) : bool :=
  ((48 <=? c) && (c <=? 57)) || ((97 <=? c) && (c <=? 102)).

(** [datetime(y, m, d)] once the constructor has accepted its arguments. *)
Definition midnight (y m d : Z) : datetime :=
  {| year := y; month := m; day := d;
     hour := 0; minute := 0; second := 0; microsecond := 0 |}.

(** A time signature as the encoder writes it: five upper-case hexadecimal
    digits. *)
Definition well_formed_signature (s : str) : bool :=
  Nat.eqb (length s) 5 && forallb is_hex_upper s.

(** How often the separator occurs in a string. *)
Definition occurrences (sep : char) (s : str) : nat :=
  length (filter (fun c => c =? sep) s).

Section TierNames.
Context {U : Unicode}.

(** The tier name as the specification resolves it: equal, case
    ignored, to the display name of a tier. *)
Definition case_insensitive_eq (a b : str) : bool := str_eqb (upper a) (upper b).

Definition tier_known (tier_name : str) : bool :=
  existsb (fun '(_, t) => case_insensitive_eq tier_name (name t)) USER_TIERS.

End TierNames.

(** ** Inputs of the examples *)

Definition date_2024_03_15 : datetime :=
  {| year := 2024; month := 3; day := 15;
     hour := 0; minute := 0; second := 0; microsecond := 0 |}.

(** The first day a [datetime] can hold; under UTC it has no timestamp. *)
Definition date_0001_01_01 : datetime :=
  {| year := 1; month := 1; day := 1;
     hour := 0; minute := 0; second := 0; microsecond := 0 |}.

Definition archivist : Tier :=
  {| id := 1; name := lit "Archivist"; separator := 45; prefix := lit "ARK" |}.

Definition godfather : Tier :=
  {| id := 3; name := lit "Godfather"; separator := 8734; prefix := lit "GOD" |}.

(** A Godfather key whose Segment A ends in ["?!"], not hexadecimal, and
    whose Segment C is ["zz"], not a time signature. *)
Definition odd_godfather_key : str :=
  format_key (lit "GOD?!") (lit "C") (lit "zz") [] []
             (calculate_checksum (lit "GOD?!Czz")) godfather.

(** A Godfather key whose Segment C is ["-1310"]: a sign where the encoder
    writes a digit. *)
Definition signed_godfather_key : str :=
  format_key (lit "GOD") (lit "C") (lit "-1310") [] []
             (calculate_checksum (lit "GODC-1310")) godfather.

(** ** A library for the examples *)

(** Stand-ins for the library functions the theorems are parametric in: a
    digest of 32 bytes, a generator that counts, and a clock that refuses
    1 January of the year 1, as the UTC zone does, and reads the same
    timestamp for every other date. *)
Definition toy_digest : Sha256 :=
  {| sha256 := fun b => firstn 32 (map (fun x => (x * 7 + 13) mod 256) (b ++ repeat 0 32)) |}.

Definition counter_random : Random.
Proof.
  refine {| rng_state := Z;
            seed_state := fun a => weighted_sum a;
            randbelow := fun st n => (st mod n, st + 1) |}.
  intros st n Hn. simpl. apply Z.mod_pos_bound. exact Hn.
Defined.

Definition fixed_clock : Clock.
Proof.
  refine {| timestamp_str := fun d =>
              if (year d =? 1) && (month d =? 1) && (day d =? 1)
              then Raise ValueError
              else Ok (lit "1710460800.0") |}.
  intros d e. destruct ((year d =? 1) && (month d =? 1) && (day d =? 1));
    [intros [= <-]; now left | discriminate].
Defined.

(** ** Definitions for the further properties *)

(** The checksum as a function of the weighted sum modulo 36. *)
Definition residue_checksum (r : Z) : str :=
  format_X 0 r ++ format_X 0 ((r * 13) mod 36).

(** The code points UTF-8 refuses. *)
Definition is_surrogate (c : char) : bool := (55296 <=? c) && (c <=? 57343).

(** [sep.join(parts)] for a one-character separator. *)
Fixpoint join (sep : char) (parts : list str) : str :=
  match parts with
  | [] => []
  | [p] => p
  | p :: rest => p ++ sep :: join sep rest
  end.

(** What the adapter shows for each tier: rank, style and main colour. *)
Definition tier_presentation : list (str * (Z * str * str)) :=
  [ (lit "ARCHIVIST", (1, lit "archivist", lit "#3A86FF"));
    (lit "ORCHESTRATOR", (2, lit "orchestrator", lit "#8338EC"));
    (lit "GODFATHER", (3, lit "godfather", lit "#FF006E"));
    (lit "ENTITY", (4, lit "entity", lit "#FFBE0B")) ].

(** * Properties *)

(** ** Formatting *)

Lemma in_range (n : nat) (z : Z) : 0 <= z < Z.of_nat n -> In z (range n).
Proof.
  intros Hz. unfold range. apply in_map_iff.
  exists (Z.to_nat z). split; [lia | apply in_seq; lia].
Qed.

(** A property checked on every number below [n] holds of each. *)
Lemma below_by_enumeration (n : nat) (p : Z -> bool) :
  forallb p (range n) = true -> forall z, 0 <= z < Z.of_nat n -> p z = true.
Proof.
  intros Hall z Hz. rewrite forallb_forall in Hall. apply Hall, in_range, Hz.
Qed.

Lemma str_eqb_eq (a b : str) : str_eqb a b = true <-> a = b.
Proof.
  revert b. induction a as [|x a IH]; intros [|y b]; simpl; split;
    try congruence; try discriminate.
  - intros Hxy. apply andb_prop in Hxy as [Hx Ha].
    apply Z.eqb_eq in Hx. apply IH in Ha. congruence.
  - intros Heq. injection Heq as -> ->.
    rewrite Z.eqb_refl. simpl. now apply IH.
Qed.

Lemma str_eqb_refl (a : str) : str_eqb a a = true.
Proof. now apply str_eqb_eq. Qed.

(** Replaces the literals of the goal and of the hypotheses by their code
    points. *)
Ltac literals :=
  repeat match goal with
         | |- context [lit ?s] =>
             let v := eval vm_compute in (lit s) in change (lit s) with v
         | H : context [lit ?s] |- _ =>
             let v := eval vm_compute in (lit s) in change (lit s) with v in H
         end.

Lemma format_X_byte (r : Z) : 0 <= r < 256 -> format_X 0 r = hex_render r.
Proof.
  intros Hr. apply str_eqb_eq.
  apply (below_by_enumeration 256 (fun r => str_eqb (format_X 0 r) (hex_render r)));
    [vm_compute; reflexivity | exact Hr].
Qed.

Lemma format_02X_byte (r : Z) :
  0 <= r < 256 -> format_X 2 r = [hex_digit (r / 16); hex_digit (r mod 16)].
Proof.
  intros Hr. apply str_eqb_eq.
  apply (below_by_enumeration 256
           (fun r => str_eqb (format_X 2 r) [hex_digit (r / 16); hex_digit (r mod 16)]));
    [vm_compute; reflexivity | exact Hr].
Qed.

Lemma hex_digit_is_hex (d : Z) : 0 <= d < 16 -> is_hex_upper (hex_digit d) = true.
Proof.
  apply (below_by_enumeration 16 (fun d => is_hex_upper (hex_digit d))).
  vm_compute; reflexivity.
Qed.

Lemma hex_render_is_hex (r : Z) : 0 <= r < 256 -> forallb is_hex_upper (hex_render r) = true.
Proof.
  apply (below_by_enumeration 256 (fun r => forallb is_hex_upper (hex_render r))).
  vm_compute; reflexivity.
Qed.

Lemma base36_is_hex_below_16 (r : Z) : 0 <= r < 16 -> hex_render r = [base36_digit r].
Proof.
  intros Hr. apply str_eqb_eq.
  apply (below_by_enumeration 16 (fun r => str_eqb (hex_render r) [base36_digit r]));
    [vm_compute; reflexivity | exact Hr].
Qed.

(** ** The checksum *)

Lemma sum_from (l : list Z) (a : Z) : fold_left Z.add l a = a + sum l.
Proof.
  unfold sum. revert a. induction l as [|x l IH]; intros a; simpl; [lia|].
  rewrite IH, (IH x). lia.
Qed.

Lemma sum_app (l1 l2 : list Z) : sum (l1 ++ l2) = sum l1 + sum l2.
Proof. unfold sum at 1. rewrite fold_left_app, sum_from. fold (sum l1). lia. Qed.

Lemma combine_append {A B} (l1 l2 : list A) (m1 m2 : list B) :
  length l1 = length m1 ->
  combine (l1 ++ l2) (m1 ++ m2) = combine l1 m1 ++ combine l2 m2.
Proof.
  revert m1. induction l1 as [|a l1 IH]; intros [|b m1] Hlen;
    simpl in *; try discriminate; [reflexivity|].
  f_equal. apply IH. congruence.
Qed.

(** The weight of a character is its 1-based position. *)
Lemma weighted_sum_snoc (s : str) (c : char) :
  weighted_sum (s ++ [c]) = weighted_sum s + c * (len s + 1).
Proof.
  unfold weighted_sum, enumerate, len.
  rewrite length_app. simpl length.
  replace (length s + 1)%nat with (S (length s)) by lia.
  rewrite seq_S, map_app. simpl.
  rewrite combine_append by now rewrite length_map, length_seq.
  rewrite map_app, sum_app. simpl. f_equal.
Qed.

(** C2, as amended: the checksum is the upper-case hexadecimal rendering of
    the weighted positional sum modulo 36 followed by that of 13 times the
    sum modulo 36.  A residue below 16 gives one digit, the base-36 digit of
    the specification; a residue from 16 to 35 gives two.  The checksum has
    2 to 4 characters, all hexadecimal digits. *)
Theorem C2_checksum_is_hex_of_residues (input_str : str) :
  let s := weighted_sum input_str in
  calculate_checksum input_str = hex_render (s mod 36) ++ hex_render ((s * 13) mod 36)
  /\ (2 <= length (calculate_checksum input_str) <= 4)%nat
  /\ forallb is_hex_upper (calculate_checksum input_str) = true
  /\ (s mod 36 < 16 /\ (s * 13) mod 36 < 16 <->
      calculate_checksum input_str = checksum_spec input_str).
Proof.
  intros s. unfold calculate_checksum. fold s.
  pose proof (Z.mod_pos_bound s 36 ltac:(lia)) as H1.
  pose proof (Z.mod_pos_bound (s * 13) 36 ltac:(lia)) as H2.
  rewrite !format_X_byte by lia.
  split; [reflexivity|]. split; [|split].
  - rewrite length_app. unfold hex_render.
    destruct (s mod 36 <? 16), ((s * 13) mod 36 <? 16); simpl; lia.
  - rewrite forallb_app, !hex_render_is_hex by lia. reflexivity.
  - unfold checksum_spec. fold s. split.
    + intros [Ha Hb]. rewrite !base36_is_hex_below_16 by lia. reflexivity.
    + intros Heq. apply (f_equal (@length char)) in Heq.
      rewrite length_app in Heq. unfold hex_render in Heq. simpl in Heq.
      destruct (s mod 36 <? 16) eqn:Ea, ((s * 13) mod 36 <? 16) eqn:Eb;
        simpl in Heq; try discriminate.
      apply Z.ltb_lt in Ea, Eb. split; assumption.
Qed.

(** C2, the claim refuted: the checksum of ["A"] (sum 65, residues 29 and
    17) is the four characters ["1D11"], where the claim's two base-36
    digits would be ["TH"]. *)
Lemma C2_checksum_of_A_has_four_characters :
  calculate_checksum (lit "A") = lit "1D11"
  /\ length (calculate_checksum (lit "A")) = 4%nat
  /\ checksum_spec (lit "A") = lit "TH".
Proof. repeat split. Qed.

(** ** The time signature *)

Lemma days_in_month_le_31 (y m : Z) : 28 <= days_in_month y m <= 31.
Proof.
  unfold days_in_month.
  destruct (m =? 2); [destruct (is_leap y); lia|].
  destruct ((m =? 4) || (m =? 6) || (m =? 9) || (m =? 11)); lia.
Qed.

Lemma encode_timestamp_digits (d : datetime) :
  valid_date d ->
  encode_timestamp d =
    [hex_digit (year d mod 100 / 16); hex_digit (year d mod 100 mod 16);
     hex_digit (month d); hex_digit (day d / 16); hex_digit (day d mod 16)].
Proof.
  intros (Hy & Hm & Hd).
  pose proof (days_in_month_le_31 (year d) (month d)) as Hdim.
  pose proof (Z.mod_pos_bound (year d) 100 ltac:(lia)) as Hy100.
  unfold encode_timestamp. cbv zeta.
  rewrite !format_02X_byte, format_X_byte by lia.
  unfold hex_render.
  replace (month d <? 16) with true by (symmetry; apply Z.ltb_lt; lia).
  reflexivity.
Qed.

Lemma encode_timestamp_is_hex (d : datetime) :
  valid_date d -> forallb is_hex_upper (encode_timestamp d) = true.
Proof.
  intros Hv. rewrite (encode_timestamp_digits d Hv).
  destruct Hv as (Hy & Hm & Hd).
  pose proof (days_in_month_le_31 (year d) (month d)) as Hdim.
  pose proof (Z.mod_pos_bound (year d) 100 ltac:(lia)) as Hy100.
  generalize dependent (year d mod 100). intros y Hy100.
  simpl. rewrite !hex_digit_is_hex; [reflexivity| | | | |];
    try lia;
    try (split; [apply Z.div_pos; lia | apply Z.div_lt_upper_bound; lia]);
    apply Z.mod_pos_bound; lia.
Qed.

(** C3, as amended: for every date the time signature is exactly 5
    upper-case hexadecimal characters: the year modulo 100 as 2 digits, the
    month as 1 digit, the day as 2 digits. *)
Theorem C3_time_signature_is_five_hex_digits (d : datetime) :
  valid_date d ->
  let y := year d mod 100 in
  encode_timestamp d =
    [hex_digit (y / 16); hex_digit (y mod 16); hex_digit (month d);
     hex_digit (day d / 16); hex_digit (day d mod 16)]
  /\ length (encode_timestamp d) = 5%nat
  /\ forallb is_hex_upper (encode_timestamp d) = true.
Proof.
  intros Hd y. split; [exact (encode_timestamp_digits d Hd)|].
  split; [now rewrite (encode_timestamp_digits d Hd) | now apply encode_timestamp_is_hex].
Qed.

(** The theorem at 15 March 2024. *)
Lemma C3_time_signature_witness :
  valid_date date_2024_03_15 /\
  (encode_timestamp date_2024_03_15 = lit "1830F"
   /\ length (encode_timestamp date_2024_03_15) = 5%nat
   /\ forallb is_hex_upper (encode_timestamp date_2024_03_15) = true).
Proof.
  assert (Hv : valid_date date_2024_03_15)
    by (repeat split; vm_compute; discriminate).
  split; [exact Hv | exact (C3_time_signature_is_five_hex_digits date_2024_03_15 Hv)].
Defined.

(** C3, the claim refuted: 15 March 2024 has the time signature ["1830F"],
    which has 5 characters and not 4. *)
Lemma C3_signature_of_2024_03_15 :
  encode_timestamp date_2024_03_15 = lit "1830F"
  /\ length (encode_timestamp date_2024_03_15) = 5%nat.
Proof. split; reflexivity. Qed.

(** ** Slices *)

Lemma clamp_minus_two (n : Z) : clamp n (-2) = Z.max 0 (n - 2).
Proof. unfold clamp. change (-2 <? 0) with true. cbv iota. lia. Qed.

Lemma slice_last_two_rejoin (s : str) :
  slice None (Some (-2)) s ++ slice (Some (-2)) None s = s.
Proof.
  unfold slice. rewrite clamp_minus_two. unfold len.
  rewrite Z.sub_0_r. simpl (skipn (Z.to_nat 0) s).
  rewrite (firstn_all2 (n := Z.to_nat (_ - _))).
  - apply firstn_skipn.
  - rewrite length_skipn. lia.
Qed.

Lemma slice_last_two_short (s : str) :
  (length s < 2)%nat ->
  slice None (Some (-2)) s = [] /\ slice (Some (-2)) None s = s.
Proof.
  intros Hs. unfold slice. rewrite clamp_minus_two. unfold len.
  replace (Z.max 0 (Z.of_nat (length s) - 2)) with 0 by lia.
  simpl. split; [reflexivity|]. apply firstn_all2. lia.
Qed.

(** ** The decoder *)

Section DecodeFacts.
Context {U : Unicode}.

Lemma find_tier_some (key name : str) (t : Tier) :
  find_tier key = Some (name, t) ->
  In (name, t) USER_TIERS /\
  startswith key (prefix t) = true /\ contains key (separator t) = true.
Proof.
  unfold find_tier. intros Hf. apply find_some in Hf as [Hin Hp].
  apply andb_prop in Hp. tauto.
Qed.

(** What the decoder computes once the tier is found and the key has five
    segments. *)
Lemma validate_five_segments (key name : str) (t : Tier) (A B C S4 cs : str) :
  find_tier key = Some (name, t) ->
  split (separator t) key = [A; B; C; S4; cs] ->
  validate_membership_key key =
    if negb (str_eqb cs (calculate_checksum (A ++ B ++ C ++ S4)))
    then Ok (Invalid (lit "Invalid checksum"))
    else
      (tier_identifier <- getitem B 0 ;;
       position <- index ascii_uppercase tier_identifier ;;
       if negb (position + 1 =? id t)
       then Ok (Invalid (lit "Tier identifier mismatch"))
       else Ok (Valid (lit "user_" ++ slice (Some 3) None A) name (id t)
                      (decode_timestamp C) (slice (Some (-2)) None S4)))%result.
Proof.
  intros Hf Hs. unfold validate_membership_key. rewrite Hf, Hs.
  rewrite slice_last_two_rejoin. reflexivity.
Qed.

(** A valid result names a row of the tier table. *)
Lemma validate_valid_inv (key uid n : str) (lvl : Z) (d : option datetime) (p : str) :
  validate_membership_key key = Ok (Valid uid n lvl d p) ->
  exists t, In (n, t) USER_TIERS /\ lvl = id t.
Proof.
  unfold validate_membership_key.
  destruct (find_tier key) as [[name t]|] eqn:Hf; [|discriminate].
  apply find_tier_some in Hf as [Hin _].
  destruct (split (separator t) key) as [|A [|B [|C [|S4 [|cs [|x r]]]]]];
    try discriminate.
  destruct (negb _); [discriminate|].
  destruct (getitem B 0) as [c|e]; simpl; [|discriminate].
  destruct (index ascii_uppercase c) as [i|e]; simpl; [|discriminate].
  destruct (negb _); [discriminate|].
  intros Heq. injection Heq as _ Hn Hl _ _. subst. now exists t.
Qed.

(** The rank letter of every row of the table is found back at its rank. *)
Lemma rank_letter_position (name : str) (t : Tier) (c : char) :
  In (name, t) USER_TIERS ->
  encode_tier (id t) = Ok c ->
  index ascii_uppercase c = Ok (id t - 1).
Proof.
  intros Hin Hc. simpl in Hin.
  destruct Hin as [E|[E|[E|[E|[]]]]]; injection E as _ <-;
    vm_compute in Hc; injection Hc as <-; reflexivity.
Qed.

Lemma decode_timestamp_short (C : str) :
  (length C < 3)%nat -> decode_timestamp C = None.
Proof.
  intros HC. unfold decode_timestamp.
  destruct (int16 (slice None (Some 2) C)); [|reflexivity].
  unfold getitem, len. change (2 <? 0) with false. cbv iota.
  replace (2 <? Z.of_nat (length C)) with false by (symmetry; apply Z.ltb_ge; lia).
  reflexivity.
Qed.

(** A valid key: checksum and rank letter as the encoder writes them. *)
Lemma validate_accepts (key name : str) (t : Tier) (A B' C S4 cs : str) (c : char) :
  find_tier key = Some (name, t) ->
  split (separator t) key = [A; c :: B'; C; S4; cs] ->
  cs = calculate_checksum (A ++ (c :: B') ++ C ++ S4) ->
  encode_tier (id t) = Ok c ->
  validate_membership_key key =
    Ok (Valid (lit "user_" ++ slice (Some 3) None A) name (id t)
              (decode_timestamp C) (slice (Some (-2)) None S4)).
Proof.
  intros Hf Hs Hcs Hc.
  rewrite (validate_five_segments _ _ _ _ _ _ _ _ Hf Hs).
  rewrite <- Hcs, str_eqb_refl. simpl negb. cbv iota.
  destruct (find_tier_some _ _ _ Hf) as [Hin _].
  change (getitem (c :: B') 0) with (Ok (A := char) c). simpl rbind.
  rewrite (rank_letter_position _ _ _ Hin Hc). simpl rbind.
  replace (id t - 1 + 1 =? id t) with true by (symmetry; apply Z.eqb_eq; lia).
  reflexivity.
Qed.

Lemma make_datetime_some (y m d : Z) (date : datetime) :
  make_datetime y m d = Some date <-> date = midnight y m d /\ valid_date date.
Proof.
  unfold make_datetime, midnight, valid_date.
  destruct ((1 <=? y) && (y <=? 9999) && (1 <=? m) && (m <=? 12) &&
            (1 <=? d) && (d <=? days_in_month y m)) eqn:E; split.
  - intros [= <-]. split; [reflexivity|]. simpl. lia.
  - intros [-> _]. reflexivity.
  - discriminate.
  - intros [-> Hv]. simpl in Hv. lia.
Qed.

(** The date of a signature: three numbers that parse and are a date. *)
Lemma decode_timestamp_some (C : str) (date : datetime) :
  decode_timestamp C = Some date <->
  exists y x m dd,
    int16 (slice None (Some 2) C) = Some y /\ getitem C 2 = Ok x /\
    int16 [x] = Some m /\ int16 (slice (Some 3) None C) = Some dd /\
    date = midnight (y + 2000) m dd /\ valid_date date.
Proof.
  unfold decode_timestamp.
  destruct (int16 (slice None (Some 2) C)) as [y|].
  2:{ split; [discriminate | intros (y & x & m & dd & Hy & _); discriminate]. }
  destruct (getitem C 2) as [x|e].
  2:{ split; [discriminate | intros (y' & x & m & dd & _ & Hx & _); discriminate]. }
  destruct (int16 [x]) as [m|] eqn:Hm.
  2:{ split; [discriminate|]. intros (y' & x' & m & dd & _ & Hx & Hm' & _).
      injection Hx as <-. congruence. }
  destruct (int16 (slice (Some 3) None C)) as [dd|].
  2:{ split; [discriminate | intros (y' & x' & m' & dd & _ & _ & _ & Hd & _); discriminate]. }
  rewrite make_datetime_some. split.
  - intros [-> Hv]. now exists y, x, m, dd.
  - intros (y' & x' & m' & dd' & [= <-] & [= <-] & Hm' & [= <-] & -> & Hv).
    rewrite Hm in Hm'. injection Hm' as <-. now split.
Qed.

End DecodeFacts.

(** C4: the decoder raises instead of returning a result.  The key
    ["ARK----1622"] has five segments and a matching checksum, its segment B
    is empty, and [segmentB[0]] raises [IndexError]; in ["ARK-1---21A"]
    segment B starts with a digit and the alphabet lookup raises
    [ValueError]. *)
Theorem C4_decoder_raises_on_bad_segment_B (U : Unicode) :
  validate_membership_key (lit "ARK----1622") = Raise IndexError
  /\ validate_membership_key (lit "ARK-1---21A") = Raise ValueError.
Proof. split; reflexivity. Qed.

(** C9: on a key of five segments the checksum is recomputed over the
    concatenation of the first four: cutting the fourth into Segment D and
    the personal element changes nothing, and a fourth segment of 0 or 1
    characters gives an empty Segment D and itself as personal element. *)
Theorem C9_checksum_covers_first_four_segments
  (U : Unicode) (key name : str) (t : Tier) (A B C S4 cs : str) :
  find_tier key = Some (name, t) ->
  split (separator t) key = [A; B; C; S4; cs] ->
  let segmentD := slice None (Some (-2)) S4 in
  let personal_element := slice (Some (-2)) None S4 in
  A ++ B ++ C ++ segmentD ++ personal_element = A ++ B ++ C ++ S4
  /\ (validate_membership_key key = Ok (Invalid (lit "Invalid checksum")) <->
      cs <> calculate_checksum (A ++ B ++ C ++ S4))
  /\ ((length S4 < 2)%nat -> segmentD = [] /\ personal_element = S4).
Proof.
  intros Hf Hs segmentD personal_element. split; [|split].
  - subst segmentD personal_element. now rewrite slice_last_two_rejoin.
  - rewrite (validate_five_segments _ _ _ _ _ _ _ _ Hf Hs).
    destruct (str_eqb cs (calculate_checksum (A ++ B ++ C ++ S4))) eqn:E; simpl.
    + apply str_eqb_eq in E. split; [|tauto].
      destruct (getitem B 0) as [c|e]; simpl; [|discriminate].
      destruct (index ascii_uppercase c) as [i|e]; simpl; [|discriminate].
      destruct (negb _); discriminate.
    + split; [|reflexivity]. intros _ Heq.
      apply str_eqb_eq in Heq. congruence.
  - apply slice_last_two_short.
Qed.

(** The theorem at the key ["ARK-A--x-1212"], whose fourth segment is the
    single character ["x"]; the key is valid and its personal element is
    ["x"]. *)
Lemma C9_one_character_fourth_segment :
  (find_tier (lit "ARK-A--x-1212") = Some (lit "ARCHIVIST", archivist)
   /\ split 45 (lit "ARK-A--x-1212") = [lit "ARK"; lit "A"; []; lit "x"; lit "1212"]
   /\ @validate_membership_key ascii_only (lit "ARK-A--x-1212") =
        Ok (Valid (lit "user_") (lit "ARCHIVIST") 1 None (lit "x")))
  /\ (lit "ARK" ++ lit "A" ++ [] ++ slice None (Some (-2)) (lit "x")
        ++ slice (Some (-2)) None (lit "x") = lit "ARK" ++ lit "A" ++ [] ++ lit "x"
      /\ (@validate_membership_key ascii_only (lit "ARK-A--x-1212")
            = Ok (Invalid (lit "Invalid checksum")) <->
          lit "1212" <> calculate_checksum (lit "ARK" ++ lit "A" ++ [] ++ lit "x"))
      /\ ((length (lit "x") < 2)%nat ->
          slice None (Some (-2)) (lit "x") = [] /\
          slice (Some (-2)) None (lit "x") = lit "x")).
Proof.
  split; [repeat split|].
  exact (C9_checksum_covers_first_four_segments ascii_only
           (lit "ARK-A--x-1212") (lit "ARCHIVIST") archivist
           (lit "ARK") (lit "A") [] (lit "x") (lit "1212") eq_refl eq_refl).
Defined.

(** ** The presentation adapter *)

(** C5: the adapter decodes first, and it does not catch what the decoder
    raises.  The keys ["ARK----1622"] and ["ARK-1---21A"] are not valid, and
    on them the adapter returns no failure result: it raises [IndexError]
    and [ValueError], as the decoder does.  For every key the adapter raises
    exactly what the decoder raises, and it returns a failure exactly when
    the decoder returns an invalid result, with the decoder's error message
    as details; on a valid key of the Godfather tier it returns success with
    main colour ["#FF006E"] and pattern complexity [min (rank * 2) 10 = 6]. *)
Theorem C5_adapter_raises_with_decoder
  (U : Unicode) (key : str) (user_data : option dict) :
  (generate_premium_qr_code (lit "ARK----1622") user_data = Raise IndexError
   /\ generate_premium_qr_code (lit "ARK-1---21A") user_data = Raise ValueError)
  /\ (forall e, generate_premium_qr_code key user_data = Raise e <->
                validate_membership_key key = Raise e)
  /\ (forall error details,
        generate_premium_qr_code key user_data = Ok (QrFailure error details) <->
        exists decode_error,
          validate_membership_key key = Ok (Invalid decode_error) /\
          error = lit "Invalid membership key" /\ details = Some decode_error)
  /\ (forall uid lvl d p,
        validate_membership_key key = Ok (Valid uid (lit "GODFATHER") lvl d p) ->
        lvl = 3 /\ Z.min (lvl * 2) 10 = 6 /\
        generate_premium_qr_code key user_data =
          Ok (QrSuccess
                {| membershipKey := key;
                   validationURL := lit "https://nexus.io/validate/" ++ key;
                   tier := lit "GODFATHER" |}
                {| style := lit "godfather";
                   mainColor := lit "#FF006E";
                   patternComplexity := Z.min (lvl * 2) 10;
                   tierLevel := 3 |}
                (lit "GODFATHER") 3)).
Proof.
  split; [split; reflexivity|].
  unfold generate_premium_qr_code. split; [|split].
  - intros e.
    destruct (validate_membership_key key) as [[error|uid n lvl d p]|e']; simpl;
      split; intros Hq; try discriminate; congruence.
  - intros error details.
    destruct (validate_membership_key key) as [[err|uid n lvl d p]|e']; simpl; split.
    + intros [= <- <-]. now exists err.
    + intros (err' & [= <-] & -> & ->). reflexivity.
    + discriminate.
    + intros (err' & Hd & _). discriminate.
    + discriminate.
    + intros (err' & Hd & _). discriminate.
  - intros uid lvl d p Hv.
    assert (Hl : lvl = 3).
    { apply validate_valid_inv in Hv as (t & Hin & ->). simpl in Hin.
      destruct Hin as [E|[E|[E|[E|[]]]]]; try discriminate E.
      injection E as <-. reflexivity. }
    rewrite Hv. subst lvl. repeat split.
Qed.

(** The adapter on the invalid key ["garbage-not-a-key"], on the valid
    Godfather key made of the segments ["GOD"], ["C"], ["1830F"], an empty
    fourth segment and the checksum ["191"], and on the key ["ARK----1622"],
    on which the decoder raises. *)
Lemma C5_adapter_on_three_keys :
  let key := format_key (lit "GOD") (lit "C") (lit "1830F") [] [] (lit "191") godfather in
  @generate_premium_qr_code ascii_only (lit "garbage-not-a-key") None =
    Ok (QrFailure (lit "Invalid membership key") (Some (lit "Unknown key format")))
  /\ @generate_premium_qr_code ascii_only key None =
       Ok (QrSuccess
             {| membershipKey := key;
                validationURL := lit "https://nexus.io/validate/" ++ key;
                tier := lit "GODFATHER" |}
             {| style := lit "godfather";
                mainColor := lit "#FF006E";
                patternComplexity := 6;
                tierLevel := 3 |}
             (lit "GODFATHER") 3)
  /\ @generate_premium_qr_code ascii_only (lit "ARK----1622") None = Raise IndexError.
Proof.
  intros key. split; [|split].
  - apply (proj1 (proj2 (proj2 (C5_adapter_raises_with_decoder
                                  ascii_only (lit "garbage-not-a-key") None)))).
    exists (lit "Unknown key format"). repeat split.
  - exact (proj2 (proj2 (proj2 (proj2 (proj2 (C5_adapter_raises_with_decoder
                                                 ascii_only key None)))
                           (lit "user_") 3 (Some date_2024_03_15) [] eq_refl))).
  - apply (proj1 (proj2 (C5_adapter_raises_with_decoder ascii_only (lit "ARK----1622") None))).
    reflexivity.
Defined.

(** ** The encoder *)

Section EncodeFacts.
Context {U : Unicode} {H : Sha256} {R : Random} {K : Clock}.

Lemma pattern_loop_returns (chars : str) (indices : list Z) (acc : str) (st : rng_state) :
  exists p, fst (pattern_loop chars indices acc st) = Ok p.
Proof.
  revert acc st. induction indices as [|i rest IH]; intros acc st; simpl.
  - now exists acc.
  - unfold bind.
    destruct (i mod 4 =? 3); unfold choice;
      destruct (randbelow st _) as [j st']; apply IH.
Qed.

(** Seeding forgets the state the generator was in. *)
Lemma generate_unique_pattern_reseeds (a : str) (st : rng_state) :
  generate_unique_pattern a st =
    pattern_loop (ascii_uppercase ++ digits) (range 12) [] (seed_state a).
Proof. reflexivity. Qed.

Lemma generate_unique_pattern_returns (a : str) (st : rng_state) :
  exists p, generate_unique_pattern a st = (Ok p, state_after_pattern a).
Proof.
  rewrite generate_unique_pattern_reseeds. unfold state_after_pattern.
  destruct (pattern_loop_returns (ascii_uppercase ++ digits) (range 12) [] (seed_state a))
    as [p Hp].
  exists p. destruct (pattern_loop _ _ _ _) as [r st']. simpl in *. now subst.
Qed.

Lemma lookup_in {V} (d : list (str * V)) (k : str) (v : V) :
  lookup d k = Some v -> In (k, v) d.
Proof.
  induction d as [|[k' v'] d IH]; simpl; [discriminate|].
  destruct (str_eqb k k') eqn:E.
  - apply str_eqb_eq in E. intros [= ->]. left. congruence.
  - intros Hl. right. now apply IH.
Qed.

Lemma encode_tier_of_table (k : str) (t : Tier) :
  In (k, t) USER_TIERS -> exists c, encode_tier (id t) = Ok c /\ 65 <= c <= 68.
Proof.
  simpl. intros [E|[E|[E|[E|[]]]]]; injection E as _ <-;
    [exists 65 | exists 66 | exists 67 | exists 68]; (split; [reflexivity | lia]).
Qed.

(** The encoder, step by step. *)
Lemma generate_membership_key_unfold (user_id tier_name : str) (d : datetime)
  (attrs : option dict) (st : rng_state) :
  generate_membership_key user_id tier_name d attrs st =
    match lookup USER_TIERS (upper tier_name) with
    | None => (Raise KeyError, st)
    | Some t =>
        match create_user_hash user_id with
        | Raise e => (Raise e, st)
        | Ok user_hash =>
            match encode_tier (id t) with
            | Raise e => (Raise e, st)
            | Ok tier_identifier =>
                match timestamp_str d with
                | Raise e => (Raise e, st)
                | Ok timestamp =>
                    match generate_unique_pattern (user_id ++ timestamp) st with
                    | (Raise e, st') => (Raise e, st')
                    | (Ok unique_pattern, st') =>
                        match generate_personal_element attrs user_id with
                        | Raise e => (Raise e, st')
                        | Ok personal_element =>
                            let segmentA := prefix t ++ slice None (Some 3) user_hash in
                            let segmentB :=
                              tier_identifier :: slice None (Some 4) unique_pattern in
                            let segmentC := encode_timestamp d in
                            let segmentD := slice (Some 4) (Some 8) unique_pattern in
                            (Ok (format_key segmentA segmentB segmentC segmentD
                                   personal_element
                                   (calculate_checksum
                                      (segmentA ++ segmentB ++ segmentC ++ segmentD ++
                                       personal_element)) t), st')
                        end
                    end
                end
            end
        end
    end.
Proof.
  unfold generate_membership_key, bind, lift, ret.
  destruct (lookup USER_TIERS (upper tier_name)); [|reflexivity].
  destruct (create_user_hash user_id); [|reflexivity].
  destruct (encode_tier _); [|reflexivity].
  destruct (timestamp_str d); [|reflexivity].
  destruct (generate_unique_pattern _ st) as [[p|e] st']; [|reflexivity].
  destruct (generate_personal_element attrs user_id); reflexivity.
Qed.

(** The key, or the exception, does not depend on the state of the
    generator the call starts from. *)
Lemma generate_membership_key_state_irrelevant (user_id tier_name : str) (d : datetime)
  (attrs : option dict) (st1 st2 : rng_state) :
  fst (generate_membership_key user_id tier_name d attrs st1) =
  fst (generate_membership_key user_id tier_name d attrs st2).
Proof.
  rewrite !generate_membership_key_unfold.
  destruct (lookup USER_TIERS (upper tier_name)); [|reflexivity].
  destruct (create_user_hash user_id); [|reflexivity].
  destruct (encode_tier _); [|reflexivity].
  destruct (timestamp_str d); [|reflexivity].
  rewrite !generate_unique_pattern_reseeds. reflexivity.
Qed.


End EncodeFacts.

Section TierLookup.
Context {U : Unicode}.

Lemma upper_ascii (s : str) : forallb is_ascii s = true -> upper s = map ascii_upper s.
Proof. intros Hs. unfold upper. now rewrite Hs. Qed.

(** Resolving a name against the display names, case ignored, is the
    dict lookup of the upper-cased name. *)
Lemma tier_known_lookup (tier_name : str) :
  tier_known tier_name =
    match lookup USER_TIERS (upper tier_name) with Some _ => true | None => false end.
Proof.
  unfold tier_known, case_insensitive_eq, USER_TIERS.
  cbn [existsb lookup name].
  change (upper (lit "Archivist")) with (lit "ARCHIVIST").
  change (upper (lit "Orchestrator")) with (lit "ORCHESTRATOR").
  change (upper (lit "Godfather")) with (lit "GODFATHER").
  change (upper (lit "Entity")) with (lit "ENTITY").
  destruct (str_eqb (upper tier_name) (lit "ARCHIVIST")); [reflexivity|].
  destruct (str_eqb (upper tier_name) (lit "ORCHESTRATOR")); [reflexivity|].
  destruct (str_eqb (upper tier_name) (lit "GODFATHER")); [reflexivity|].
  destruct (str_eqb (upper tier_name) (lit "ENTITY")); reflexivity.
Qed.

(** Any casing of a display name is looked up as its own row. *)
Lemma lookup_any_casing (tier_name k : str) (t : Tier) :
  In (k, t) USER_TIERS ->
  forallb is_ascii tier_name = true ->
  map ascii_upper tier_name = map ascii_upper (name t) ->
  upper tier_name = k /\ lookup USER_TIERS (upper tier_name) = Some t.
Proof.
  intros Hin Hascii Hup. rewrite (upper_ascii _ Hascii), Hup.
  simpl in Hin. destruct Hin as [E|[E|[E|[E|[]]]]]; injection E as <- <-;
    split; reflexivity.
Qed.


End TierLookup.

(** C7: the key the encoder returns is a function of its arguments: two
    calls with the same user id, tier name, date and attributes return the
    same key (or raise the same exception) from any two states of the
    generator, hence in either order and whatever ran in between. *)
Theorem C7_encoder_is_deterministic
  (U : Unicode) (H : Sha256) (R : Random) (K : Clock)
  (user_id tier_name : str) (d : datetime) (attrs : option dict) :
  (forall st1 st2 : rng_state,
     fst (generate_membership_key user_id tier_name d attrs st1) =
     fst (generate_membership_key user_id tier_name d attrs st2))
  /\ (forall (between : rng_state -> rng_state) (st : rng_state),
        let first := generate_membership_key user_id tier_name d attrs st in
        let second := generate_membership_key user_id tier_name d attrs (between (snd first)) in
        fst second = fst first).
Proof.
  split.
  - apply generate_membership_key_state_irrelevant.
  - intros between st first second.
    apply generate_membership_key_state_irrelevant.
Qed.



(** ** Splitting a key *)

Lemma occurrences_app (sep : char) (a b : str) :
  occurrences sep (a ++ b) = (occurrences sep a + occurrences sep b)%nat.
Proof. unfold occurrences. now rewrite filter_app, length_app. Qed.

Lemma occurrences_sep (sep : char) (s : str) :
  occurrences sep (sep :: s) = S (occurrences sep s).
Proof. unfold occurrences. simpl. now rewrite Z.eqb_refl. Qed.

(** A string splits in one part more than it holds separators. *)
Lemma length_split (sep : char) (s : str) :
  length (split sep s) = S (occurrences sep s).
Proof.
  induction s as [|c r IH]; [reflexivity|].
  unfold occurrences in *. simpl.
  destruct (c =? sep); simpl; [now rewrite IH|].
  destruct (split sep r); simpl in *; [discriminate | exact IH].
Qed.

Lemma split_without_separator (sep : char) (a : str) :
  ~ In sep a -> split sep a = [a].
Proof.
  induction a as [|c a IH]; intros Hn; [reflexivity|]. simpl.
  destruct (c =? sep) eqn:E.
  - apply Z.eqb_eq in E. exfalso. apply Hn. now left.
  - rewrite IH; [reflexivity|]. intros Hin. apply Hn. now right.
Qed.

Lemma split_at_separator (sep : char) (a r : str) :
  ~ In sep a -> split sep (a ++ sep :: r) = a :: split sep r.
Proof.
  induction a as [|c a IH]; intros Hn; simpl.
  - now rewrite Z.eqb_refl.
  - destruct (c =? sep) eqn:E.
    + apply Z.eqb_eq in E. exfalso. apply Hn. now left.
    + rewrite IH; [reflexivity|]. intros Hin. apply Hn. now right.
Qed.

(** A key laid out by [format_key] splits back into its five segments when
    none of them holds the separator. *)
Lemma split_format_key (A B C D P cs : str) (t : Tier) :
  ~ In (separator t) A -> ~ In (separator t) B -> ~ In (separator t) C ->
  ~ In (separator t) (D ++ P) -> ~ In (separator t) cs ->
  split (separator t) (format_key A B C D P cs t) = [A; B; C; D ++ P; cs].
Proof.
  intros HA HB HC HD Hcs. unfold format_key. simpl app.
  rewrite (split_at_separator _ A), (split_at_separator _ B),
    (split_at_separator _ C) by assumption.
  rewrite app_assoc, (split_at_separator _ (D ++ P)) by assumption.
  now rewrite split_without_separator.
Qed.

(** A separator inside Segment D or the personal element gives a sixth
    part. *)
Lemma format_key_has_separators (A B C D P cs : str) (t : Tier) :
  (4 + occurrences (separator t) (D ++ P) <=
   occurrences (separator t) (format_key A B C D P cs t))%nat.
Proof.
  unfold format_key. simpl app.
  repeat (rewrite ?occurrences_app, ?occurrences_sep; simpl app).
  lia.
Qed.

Section StructureFacts.
Context {U : Unicode}.

Lemma validate_wrong_segment_count (key name : str) (t : Tier) :
  find_tier key = Some (name, t) ->
  length (split (separator t) key) <> 5%nat ->
  validate_membership_key key = Ok (Invalid (lit "Invalid key structure")).
Proof.
  intros Hf Hlen. unfold validate_membership_key. rewrite Hf.
  destruct (split (separator t) key) as [|A [|B [|C [|S4 [|cs [|x r]]]]]];
    try reflexivity.
  now contradiction Hlen.
Qed.

Lemma startswith_app (p r : str) : startswith (p ++ r) p = true.
Proof. induction p as [|x p IH]; simpl; [reflexivity|]. now rewrite Z.eqb_refl. Qed.

Lemma startswith_inv (s p : str) : startswith s p = true -> exists r, s = p ++ r.
Proof.
  revert s. induction p as [|x p IH]; intros s Hs; [now exists s|].
  destruct s as [|y s]; [discriminate|]. simpl in Hs.
  apply andb_prop in Hs as [Hx Hs]. apply Z.eqb_eq in Hx. subst y.
  destruct (IH s Hs) as [r ->]. now exists r.
Qed.

(** The prefixes of the table are distinct three-letter words, so the
    first row whose prefix and separator the key has is the only one. *)
Lemma find_tier_by_prefix (key k : str) (t : Tier) :
  In (k, t) USER_TIERS ->
  startswith key (prefix t) = true ->
  contains key (separator t) = true ->
  find_tier key = Some (k, t).
Proof.
  intros Hin Hs Hc. unfold find_tier, USER_TIERS.
  apply startswith_inv in Hs as [r Hkey].
  simpl in Hin. destruct Hin as [E|[E|[E|[E|[]]]]]; injection E as <- <-;
    literals; cbn [prefix separator app] in *; subst key;
    cbn [find startswith prefix separator]; simpl andb; simpl in Hc;
    rewrite Hc; reflexivity.
Qed.

Lemma find_tier_format_key (k : str) (t : Tier) (rest B C D P cs : str) :
  In (k, t) USER_TIERS ->
  find_tier (format_key (prefix t ++ rest) B C D P cs t) = Some (k, t).
Proof.
  intros Hin. apply find_tier_by_prefix; [exact Hin| |].
  - unfold format_key. rewrite <- app_assoc. apply startswith_app.
  - unfold contains, format_key. rewrite existsb_app. simpl.
    rewrite Z.eqb_refl. apply orb_true_r.
Qed.

End StructureFacts.

(** ** The round trip *)

(** C1: the round trip fails.  A member whose name attribute is ["-"] gets
    the personal element ["-"], which is the separator of the Archivist
    tier: for every date that has a timestamp the generated key has five
    separators, splits into six parts, and the decoder answers
    [Invalid key structure].  (For a date without a timestamp the encoder
    raises and there is no key.) *)
Theorem C1_round_trip_breaks_on_separator_in_key
  (U : Unicode) (H : Sha256) (R : Random) (K : Clock) (d : datetime) (st : rng_state) :
  (forall timestamp, timestamp_str d = Ok timestamp ->
     exists key st',
       generate_membership_key (lit "alice123") (lit "Archivist") d
         (Some [(lit "name", lit "-")]) st = (Ok key, st')
       /\ (length (split 45%Z key) > 5)%nat
       /\ validate_membership_key key = Ok (Invalid (lit "Invalid key structure")))
  /\ (forall e, timestamp_str d = Raise e ->
        generate_membership_key (lit "alice123") (lit "Archivist") d
          (Some [(lit "name", lit "-")]) st = (Raise e, st)).
Proof.
  rewrite generate_membership_key_unfold.
  change (lookup USER_TIERS (upper (lit "Archivist"))) with (Some archivist).
  assert (Hh : exists h, create_user_hash (lit "alice123") = Ok h)
    by (eexists; reflexivity).
  destruct Hh as [h ->].
  change (encode_tier (id archivist)) with (Ok (A := char) 65).
  split; [|intros e ->; reflexivity].
  intros ts ->.
  destruct (generate_unique_pattern_returns (lit "alice123" ++ ts) st) as [p ->].
  change (generate_personal_element (Some [(lit "name", lit "-")]) (lit "alice123"))
    with (Ok (A := str) [45]).
  cbv zeta. eexists _, _. split; [reflexivity|].
  match goal with
  | |- context [validate_membership_key (format_key ?A ?B ?C ?D ?P ?cs ?t)] =>
      pose proof (format_key_has_separators A B C D P cs t) as Hocc;
      pose proof (length_split (separator t) (format_key A B C D P cs t)) as Hlen;
      pose proof (find_tier_format_key (lit "ARCHIVIST") t
                    (slice None (Some 3) h) B C D P cs (or_introl eq_refl)) as Hfind
  end.
  rewrite occurrences_app in Hocc.
  change (occurrences (separator archivist) [45]) with 1%nat in Hocc.
  change (separator archivist) with 45 in Hlen, Hocc.
  split; [lia|].
  apply (validate_wrong_segment_count _ _ _ Hfind).
  change (separator archivist) with 45. lia.
Qed.

(** The theorem at 15 March 2024 with the stand-in library, where the key
    of the member named ["-"] is ["ARKB40-ARST,-1830F-VWX>--B23"]. *)
Lemma C1_key_of_member_named_dash :
  exists key st',
    @generate_membership_key ascii_only toy_digest counter_random fixed_clock
      (lit "alice123") (lit "Archivist") date_2024_03_15
      (Some [(lit "name", lit "-")]) 0 = (Ok key, st')
    /\ (length (split 45%Z key) > 5)%nat
    /\ @validate_membership_key ascii_only key = Ok (Invalid (lit "Invalid key structure")).
Proof.
  exact (proj1 (C1_round_trip_breaks_on_separator_in_key
                  ascii_only toy_digest counter_random fixed_clock date_2024_03_15 0)
           (lit "1710460800.0") eq_refl).
Defined.

(** ** When the round trip holds *)

Lemma forallb_firstn {A} (f : A -> bool) (n : nat) (l : list A) :
  forallb f l = true -> forallb f (firstn n l) = true.
Proof.
  revert n. induction l as [|x l IH]; intros [|n] Hl; simpl in *; try reflexivity.
  apply andb_prop in Hl as [Hx Hl]. now rewrite Hx, IH.
Qed.

Lemma forallb_skipn {A} (f : A -> bool) (n : nat) (l : list A) :
  forallb f l = true -> forallb f (skipn n l) = true.
Proof.
  revert n. induction l as [|x l IH]; intros [|n] Hl; simpl in *; try reflexivity.
  - exact Hl.
  - apply andb_prop in Hl as [_ Hl]. now apply IH.
Qed.

Lemma forallb_slice (f : char -> bool) (lo hi : option Z) (s : str) :
  forallb f s = true -> forallb f (slice lo hi s) = true.
Proof. intros Hs. unfold slice. now apply forallb_firstn, forallb_skipn. Qed.

Lemma not_in_by_class (f : char -> bool) (c : char) (s : str) :
  forallb f s = true -> f c = false -> ~ In c s.
Proof.
  intros Hs Hc Hin. rewrite forallb_forall in Hs. apply Hs in Hin. congruence.
Qed.

Lemma in_slice (c : char) (lo hi : option Z) (s : str) : In c (slice lo hi s) -> In c s.
Proof.
  unfold slice. intros Hin.
  set (a := Z.to_nat match lo with None => 0 | Some i => clamp (len s) i end) in *.
  rewrite <- (firstn_skipn a s). apply in_or_app. right.
  match type of Hin with In c (firstn ?n ?l) => rewrite <- (firstn_skipn n l) end.
  apply in_or_app. now left.
Qed.

Lemma hexdigest_is_hex (bytes : list Z) : forallb is_hex_lower (hexdigest bytes) = true.
Proof.
  assert (Hd : forall x, is_hex_lower (hex_digit_lower (x mod 16)) = true).
  { intros x.
    apply (below_by_enumeration 16 (fun d => is_hex_lower (hex_digit_lower d)));
      [vm_compute; reflexivity | apply Z.mod_pos_bound; lia]. }
  induction bytes as [|b bytes IH]; [reflexivity|].
  simpl. now rewrite !Hd, IH.
Qed.

Lemma upper_of_hex_lower (s : str) :
  forallb is_hex_lower s = true -> forallb is_hex_upper (map ascii_upper s) = true.
Proof.
  induction s as [|c s IH]; [reflexivity|]. simpl. intros Hs.
  apply andb_prop in Hs as [Hc Hs]. rewrite (IH Hs), andb_true_r.
  unfold is_hex_lower in Hc. unfold is_hex_upper, ascii_upper.
  destruct ((97 <=? c) && (c <=? 122)) eqn:E; lia.
Qed.

Lemma hex_lower_is_ascii (s : str) :
  forallb is_hex_lower s = true -> forallb is_ascii s = true.
Proof.
  induction s as [|c s IH]; [reflexivity|]. simpl. intros Hs.
  apply andb_prop in Hs as [Hc Hs]. rewrite (IH Hs), andb_true_r.
  unfold is_hex_lower in Hc. unfold is_ascii. lia.
Qed.

Lemma calculate_checksum_is_hex (s : str) :
  forallb is_hex_upper (calculate_checksum s) = true.
Proof.
  unfold calculate_checksum.
  pose proof (Z.mod_pos_bound (weighted_sum s) 36 ltac:(lia)).
  pose proof (Z.mod_pos_bound (weighted_sum s * 13) 36 ltac:(lia)).
  rewrite !format_X_byte, forallb_app, !hex_render_is_hex by lia. reflexivity.
Qed.

Lemma separator_is_not_hex (k : str) (t : Tier) :
  In (k, t) USER_TIERS -> is_hex_upper (separator t) = false.
Proof.
  simpl. intros [E|[E|[E|[E|[]]]]]; injection E as _ <-; reflexivity.
Qed.

Lemma separator_not_in_prefix (k : str) (t : Tier) :
  In (k, t) USER_TIERS -> ~ In (separator t) (prefix t).
Proof.
  simpl. intros [E|[E|[E|[E|[]]]]]; injection E as _ <-; literals; simpl;
    intros Hin; repeat (destruct Hin as [Hin|Hin]; [discriminate Hin|]); exact Hin.
Qed.

Section RoundTrip.
Context {U : Unicode} {H : Sha256} {R : Random} {K : Clock}.

Lemma create_user_hash_is_hex (user_id h : str) :
  create_user_hash user_id = Ok h -> forallb is_hex_upper h = true.
Proof.
  unfold create_user_hash. destruct (encode user_id) as [b|e]; simpl; [|discriminate].
  intros [= <-].
  pose proof (forallb_slice _ None (Some 6) _ (hexdigest_is_hex (sha256 b))) as Hs.
  rewrite (upper_ascii _ (hex_lower_is_ascii _ Hs)). now apply upper_of_hex_lower.
Qed.

End RoundTrip.

Lemma occurrences_positive (sep : char) (s : str) :
  In sep s -> (1 <= occurrences sep s)%nat.
Proof.
  unfold occurrences. induction s as [|c s IH]; simpl; [tauto|].
  intros [->|Hin].
  - rewrite Z.eqb_refl. simpl. lia.
  - destruct (c =? sep); simpl; [lia | now apply IH].
Qed.

Lemma occurrences_format_key (A B C D P cs : str) (t : Tier) :
  occurrences (separator t) (format_key A B C D P cs t) =
    (4 + occurrences (separator t) A + occurrences (separator t) B +
     occurrences (separator t) C + occurrences (separator t) (D ++ P) +
     occurrences (separator t) cs)%nat.
Proof.
  unfold format_key. simpl app.
  repeat (rewrite ?occurrences_app, ?occurrences_sep; simpl app).
  lia.
Qed.

Lemma contains_in (s : str) (c : char) : contains s c = true <-> In c s.
Proof.
  unfold contains. rewrite existsb_exists. split.
  - intros (x & Hin & Hx). apply Z.eqb_eq in Hx. now subst.
  - intros Hin. exists c. split; [exact Hin | apply Z.eqb_refl].
Qed.

Section RoundTripTheorem.
Context {U : Unicode} {H : Sha256} {R : Random} {K : Clock}.

Lemma split_ws_from_words (cur s : str) :
  Forall (fun w => w <> []) (split_ws_from cur s).
Proof.
  assert (Hrev : forall (c : char) (cur' : str), rev (c :: cur') <> []).
  { intros c cur' E. apply (f_equal (@length char)) in E.
    rewrite length_rev in E. discriminate E. }
  revert cur. induction s as [|c s IH]; intros cur; simpl.
  - destruct cur; constructor; [apply Hrev | constructor].
  - destruct (isspace c); [|apply IH].
    destruct cur; [apply IH|]. constructor; [apply Hrev | apply IH].
Qed.

Lemma initials_of_words (words : list str) :
  Forall (fun w => w <> []) words ->
  exists initials,
    mapM (fun p => c <- getitem p 0 ;; Ok (upper [c]))%result words = Ok initials.
Proof.
  induction 1 as [|w words Hw _ [initials IH]]; simpl; [now exists []|].
  destruct w as [|c w]; [contradiction|].
  change (getitem (c :: w) 0) with (Ok (A := char) c). simpl rbind.
  rewrite IH. simpl. eauto.
Qed.

Lemma Forall_firstn {A} (P : A -> Prop) (n : nat) (l : list A) :
  Forall P l -> Forall P (firstn n l).
Proof.
  intros Hl. revert n. induction Hl; intros [|n]; simpl; constructor; auto.
Qed.

(** The personal element never raises once the user id can be hashed. *)
Lemma generate_personal_element_returns (attrs : option dict) (user_id h : str) :
  create_user_hash user_id = Ok h ->
  exists pe, generate_personal_element attrs user_id = Ok pe.
Proof.
  intros Hh. unfold generate_personal_element. rewrite Hh.
  destruct (match attrs with Some d => lookup d (lit "name") | None => None end)
    as [full_name|]; [|simpl; eauto].
  destruct (initials_of_words (firstn 2 (split_ws full_name))) as [initials ->].
  - apply Forall_firstn, split_ws_from_words.
  - simpl. eauto.
Qed.

(** The encoder returns a key for every known tier, every user id that
    UTF-8 can encode and every date that has a timestamp. *)
Lemma generate_membership_key_returns (user_id tier_name : str) (d : datetime)
  (attrs : option dict) (st : rng_state) (t : Tier) (h ts : str) :
  lookup USER_TIERS (upper tier_name) = Some t ->
  create_user_hash user_id = Ok h ->
  timestamp_str d = Ok ts ->
  exists c p pe,
    encode_tier (id t) = Ok c /\
    fst (generate_unique_pattern (user_id ++ ts) st) = Ok p /\
    generate_personal_element attrs user_id = Ok pe /\
    fst (generate_membership_key user_id tier_name d attrs st) =
      Ok (let A := prefix t ++ slice None (Some 3) h in
          let B := c :: slice None (Some 4) p in
          let C := encode_timestamp d in
          let D := slice (Some 4) (Some 8) p in
          format_key A B C D pe (calculate_checksum (A ++ B ++ C ++ D ++ pe)) t).
Proof.
  intros Ht Hh Hts. rewrite generate_membership_key_unfold, Ht, Hh, Hts.
  destruct (encode_tier_of_table _ _ (lookup_in _ _ _ Ht)) as (c & Hc & _).
  destruct (generate_unique_pattern_returns (user_id ++ ts) st) as [p Hp].
  destruct (generate_personal_element_returns attrs _ _ Hh) as [pe Hpe].
  exists c, p, pe. rewrite Hc, Hp, Hpe. repeat split.
Qed.

End RoundTripTheorem.

Lemma slice_drop_app (a x : str) : slice (Some (len a)) None (a ++ x) = x.
Proof.
  unfold slice, clamp, len. rewrite length_app.
  replace (Z.of_nat (length a) <? 0) with false by (symmetry; apply Z.ltb_ge; lia).
  replace (Z.min (Z.of_nat (length a)) (Z.of_nat (length a + length x)))
    with (Z.of_nat (length a)) by lia.
  rewrite Nat2Z.id, skipn_app, skipn_all, Nat.sub_diag. simpl.
  apply firstn_all2. lia.
Qed.

Lemma slice_after_prefix (k : str) (t : Tier) (x : str) :
  In (k, t) USER_TIERS -> slice (Some 3) None (prefix t ++ x) = x.
Proof.
  simpl. intros [E|[E|[E|[E|[]]]]]; injection E as _ <-; cbn [prefix];
    [exact (slice_drop_app (lit "ARK") x) | exact (slice_drop_app (lit "ORC") x)
    | exact (slice_drop_app (lit "GOD") x) | exact (slice_drop_app (lit "NXS") x)].
Qed.

Section RoundTripCharacterised.
Context {U : Unicode} {H : Sha256} {R : Random} {K : Clock}.

(** The round trip, characterised: the key of a known tier decodes to that
    tier and its rank exactly when the tier's separator occurs neither in
    the first eight characters of the unique pattern nor in the personal
    element; otherwise the decoder answers [Invalid key structure]. *)
Lemma decode_of_encoded_key
  (user_id tier_name : str) (d : datetime) (attrs : option dict) (st : rng_state)
  (t : Tier) (h ts p pe : str) :
  lookup USER_TIERS (upper tier_name) = Some t ->
  create_user_hash user_id = Ok h ->
  valid_date d ->
  timestamp_str d = Ok ts ->
  fst (generate_unique_pattern (user_id ++ ts) st) = Ok p ->
  generate_personal_element attrs user_id = Ok pe ->
  exists key,
    fst (generate_membership_key user_id tier_name d attrs st) = Ok key /\
    validate_membership_key key =
      if contains (slice None (Some 4) p ++ slice (Some 4) (Some 8) p ++ pe) (separator t)
      then Ok (Invalid (lit "Invalid key structure"))
      else Ok (Valid (lit "user_" ++ slice None (Some 3) h) (upper tier_name) (id t)
                 (decode_timestamp (encode_timestamp d))
                 (slice (Some (-2)) None (slice (Some 4) (Some 8) p ++ pe))).
Proof.
  intros Ht Hh Hd Hts Hp Hpe.
  destruct (generate_membership_key_returns user_id tier_name d attrs st t h ts Ht Hh Hts)
    as (c & p' & pe' & Hc & Hp' & Hpe' & Hkey).
  rewrite Hp in Hp'. injection Hp' as <-. rewrite Hpe in Hpe'. injection Hpe' as <-.
  cbv zeta in Hkey. eexists. split; [exact Hkey|].
  pose proof (lookup_in _ _ _ Ht) as Hin.
  set (A := prefix t ++ slice None (Some 3) h) in *.
  set (B := c :: slice None (Some 4) p) in *.
  set (C := encode_timestamp d) in *.
  set (D := slice (Some 4) (Some 8) p) in *.
  set (cs := calculate_checksum (A ++ B ++ C ++ D ++ pe)) in *.
  pose proof (find_tier_format_key (upper tier_name) t (slice None (Some 3) h)
                B C D pe cs Hin) as Hfind. fold A in Hfind.
  destruct (encode_tier_of_table _ _ Hin) as (c' & Hc' & Hrange).
  rewrite Hc in Hc'. injection Hc' as <-.
  destruct (contains _ (separator t)) eqn:Hsep.
  - apply (validate_wrong_segment_count _ _ _ Hfind).
    rewrite length_split, occurrences_format_key.
    apply contains_in in Hsep.
    assert (1 <= occurrences (separator t) B + occurrences (separator t) (D ++ pe))%nat.
    { apply in_app_or in Hsep as [Hsep|Hsep].
      - assert (In (separator t) B) by (right; exact Hsep).
        pose proof (occurrences_positive _ _ H0). lia.
      - pose proof (occurrences_positive _ _ Hsep). lia. }
    lia.
  - assert (Hno : ~ In (separator t) (slice None (Some 4) p ++ D ++ pe)).
    { intros Hin'. apply contains_in in Hin'. congruence. }
    pose proof (separator_is_not_hex _ _ Hin) as Hnothex.
    assert (HA : ~ In (separator t) A).
    { intros HinA. apply in_app_or in HinA as [HinA|HinA].
      - exact (separator_not_in_prefix _ _ Hin HinA).
      - apply in_slice in HinA.
        exact (not_in_by_class _ _ _ (create_user_hash_is_hex _ _ Hh) Hnothex HinA). }
    assert (HB : ~ In (separator t) B).
    { intros [E|HinB].
      - rewrite <- E in Hnothex. unfold is_hex_upper in Hnothex. lia.
      - apply Hno, in_or_app. now left. }
    assert (HC : ~ In (separator t) C)
      by exact (not_in_by_class _ _ _ (encode_timestamp_is_hex d Hd) Hnothex).
    assert (HD : ~ In (separator t) (D ++ pe)).
    { intros HinD. apply Hno, in_or_app. now right. }
    assert (Hcs : ~ In (separator t) cs)
      by exact (not_in_by_class _ _ _ (calculate_checksum_is_hex _) Hnothex).
    pose proof (split_format_key A B C D pe cs t HA HB HC HD Hcs) as Hsplit.
    rewrite (validate_accepts _ _ _ A (slice None (Some 4) p) C (D ++ pe) cs c
               Hfind Hsplit).
    + subst A. now rewrite (slice_after_prefix _ _ _ Hin).
    + reflexivity.
    + exact Hc.
Qed.

End RoundTripCharacterised.

Section PatternAlphabet.
Context {U : Unicode} {H : Sha256} {R : Random} {K : Clock}.

Lemma choice_in (seq : str) (st : rng_state) :
  seq <> [] -> exists c st', choice seq st = (Ok c, st') /\ In c seq.
Proof.
  intros Hseq. unfold choice.
  pose proof (randbelow_range st (len seq)) as Hr.
  destruct (randbelow st (len seq)) as [i st']. simpl in Hr.
  eexists _, _. split; [reflexivity|].
  assert (0 < len seq) by (unfold len; destruct seq; [contradiction | simpl; lia]).
  apply nth_In. unfold len in *. lia.
Qed.

(** Every character of the pattern is drawn from one of the two
    alphabets. *)
Lemma pattern_loop_alphabet (f : char -> bool) (chars : str) (indices : list Z)
  (acc : str) (st : rng_state) (p : str) :
  chars <> [] -> forallb f chars = true -> forallb f SPECIAL_CHARS = true ->
  forallb f acc = true ->
  fst (pattern_loop chars indices acc st) = Ok p -> forallb f p = true.
Proof.
  intros Hne Hchars Hspecial. revert acc st.
  induction indices as [|i rest IH]; intros acc st Hacc; simpl.
  - intros [= <-]. exact Hacc.
  - unfold bind.
    assert (Hdraw : exists c st',
              (if i mod 4 =? 3 then choice SPECIAL_CHARS else choice chars) st = (Ok c, st')
              /\ f c = true).
    { destruct (i mod 4 =? 3).
      - destruct (choice_in SPECIAL_CHARS st ltac:(discriminate)) as (c & st' & Hc & Hin).
        exists c, st'. split; [exact Hc|].
        rewrite forallb_forall in Hspecial. now apply Hspecial.
      - destruct (choice_in chars st Hne) as (c & st' & Hc & Hin).
        exists c, st'. split; [exact Hc|].
        rewrite forallb_forall in Hchars. now apply Hchars. }
    destruct Hdraw as (c & st' & -> & Hfc).
    apply IH. rewrite forallb_app, Hacc. simpl. now rewrite Hfc.
Qed.

Lemma generate_unique_pattern_is_ascii (a : str) (st : rng_state) (p : str) :
  fst (generate_unique_pattern a st) = Ok p -> forallb is_ascii p = true.
Proof.
  rewrite generate_unique_pattern_reseeds.
  apply pattern_loop_alphabet; try reflexivity. discriminate.
Qed.

Lemma hex_upper_is_ascii (s : str) :
  forallb is_hex_upper s = true -> forallb is_ascii s = true.
Proof.
  induction s as [|c s IH]; [reflexivity|]. simpl. intros Hs.
  apply andb_prop in Hs as [Hc Hs]. rewrite (IH Hs), andb_true_r.
  unfold is_hex_upper in Hc. unfold is_ascii. lia.
Qed.

(** For the tiers whose separator lies outside ASCII (Godfather and
    Entity) and a member without a name attribute the round trip holds for
    every user id that UTF-8 can encode and every date that has a
    timestamp. *)
Theorem round_trip_without_name_for_unicode_separators
  (user_id tier_name : str) (d : datetime) (attrs : option dict) (st : rng_state)
  (t : Tier) (h timestamp : str) :
  lookup USER_TIERS (upper tier_name) = Some t ->
  is_ascii (separator t) = false ->
  match attrs with Some a => lookup a (lit "name") | None => None end = None ->
  create_user_hash user_id = Ok h ->
  valid_date d ->
  timestamp_str d = Ok timestamp ->
  exists key decoded_id date personal,
    fst (generate_membership_key user_id tier_name d attrs st) = Ok key /\
    validate_membership_key key =
      Ok (Valid decoded_id (upper tier_name) (id t) date personal).
Proof.
  intros Ht Hsep Hname Hh Hd Hts.
  destruct (generate_unique_pattern_returns (user_id ++ timestamp) st) as [p Hp].
  assert (Hp' : fst (generate_unique_pattern (user_id ++ timestamp) st) = Ok p)
    by now rewrite Hp.
  assert (Hpe : generate_personal_element attrs user_id = Ok (slice None (Some 2) h)).
  { unfold generate_personal_element. now rewrite Hname, Hh. }
  destruct (decode_of_encoded_key user_id tier_name d attrs st t h timestamp p _
              Ht Hh Hd Hts Hp' Hpe) as (key & Hkey & Hval).
  exists key. rewrite Hval.
  replace (contains _ (separator t)) with false; [eauto|].
  symmetry. apply not_true_is_false. intros Hc. apply contains_in in Hc.
  pose proof (generate_unique_pattern_is_ascii _ _ _ Hp') as Hascii.
  pose proof (hex_upper_is_ascii _ (create_user_hash_is_hex _ _ Hh)) as Hhascii.
  apply in_app_or in Hc as [Hc|Hc]; [|apply in_app_or in Hc as [Hc|Hc]];
    apply in_slice in Hc;
    eapply not_in_by_class in Hc; eauto.
Qed.

End PatternAlphabet.

(** The round trip of tier and rank holds exactly when the separator of
    the tier stays out of the key's segments: a key generated for a known
    tier, a user id that UTF-8 can encode and a date that has a timestamp
    decodes as valid with the upper-cased tier name and the rank of the tier
    when the separator occurs neither in the first eight characters of the
    unique pattern nor in the personal element, and as
    [Invalid key structure] otherwise. *)
Theorem round_trip_iff_separator_absent
  (U : Unicode) (H : Sha256) (R : Random) (K : Clock)
  (user_id tier_name : str) (d : datetime) (attrs : option dict) (st : rng_state)
  (t : Tier) (h timestamp p pe : str) :
  lookup USER_TIERS (upper tier_name) = Some t ->
  create_user_hash user_id = Ok h ->
  valid_date d ->
  timestamp_str d = Ok timestamp ->
  fst (generate_unique_pattern (user_id ++ timestamp) st) = Ok p ->
  generate_personal_element attrs user_id = Ok pe ->
  exists key,
    fst (generate_membership_key user_id tier_name d attrs st) = Ok key /\
    validate_membership_key key =
      if contains (slice None (Some 4) p ++ slice (Some 4) (Some 8) p ++ pe) (separator t)
      then Ok (Invalid (lit "Invalid key structure"))
      else Ok (Valid (lit "user_" ++ slice None (Some 3) h) (upper tier_name) (id t)
                 (decode_timestamp (encode_timestamp d))
                 (slice (Some (-2)) None (slice (Some 4) (Some 8) p ++ pe))).
Proof. exact (decode_of_encoded_key user_id tier_name d attrs st t h timestamp p pe). Qed.

(** The end-to-end example of the specification, with the stand-in
    library: the key of ["alice123"], an Archivist registered on 15 March
    2024 under the name ["Alice Smith"], decodes to the tier [ARCHIVIST],
    that date and the personal element ["AS"]. *)
Lemma round_trip_of_alice_smith :
  valid_date date_2024_03_15 /\
  exists key,
    fst (@generate_membership_key ascii_only toy_digest counter_random fixed_clock
           (lit "alice123") (lit "Archivist") date_2024_03_15
           (Some [(lit "name", lit "Alice Smith")]) 0) = Ok key /\
    @validate_membership_key ascii_only key =
      Ok (Valid (lit "user_B40") (lit "ARCHIVIST") 1 (Some date_2024_03_15) (lit "AS")).
Proof.
  assert (Hv : valid_date date_2024_03_15)
    by (repeat split; vm_compute; discriminate).
  split; [exact Hv|].
  exact (round_trip_iff_separator_absent ascii_only toy_digest counter_random fixed_clock
           (lit "alice123") (lit "Archivist") date_2024_03_15
           (Some [(lit "name", lit "Alice Smith")]) 0
           archivist (lit "B401EC") (lit "1710460800.0") (lit "RST,VWX>Z01#") (lit "AS")
           eq_refl eq_refl Hv eq_refl eq_refl eq_refl).
Defined.

(** A Godfather key generated with the stand-in library for a member
    without a name attribute decodes to the tier [GODFATHER] and rank 3. *)
Lemma round_trip_of_godfather_key :
  valid_date date_2024_03_15 /\
  exists key decoded_id date personal,
    fst (@generate_membership_key ascii_only toy_digest counter_random fixed_clock
           (lit "alice123") (lit "Godfather") date_2024_03_15 None 0) = Ok key /\
    @validate_membership_key ascii_only key =
      Ok (Valid decoded_id (lit "GODFATHER") 3 date personal).
Proof.
  assert (Hv : valid_date date_2024_03_15)
    by (repeat split; vm_compute; discriminate).
  split; [exact Hv|].
  exact (@round_trip_without_name_for_unicode_separators
           ascii_only toy_digest counter_random fixed_clock
           (lit "alice123") (lit "Godfather") date_2024_03_15 None 0
           godfather (lit "B401EC") (lit "1710460800.0")
           eq_refl eq_refl eq_refl eq_refl Hv eq_refl).
Defined.

(** * Further properties *)

(** ** What the checksum detects *)

Lemma sum_cons (c : Z) (l : list Z) : sum (c :: l) = c + sum l.
Proof. unfold sum. simpl. now rewrite sum_from. Qed.

Lemma weighted_sum_nil : weighted_sum [] = 0.
Proof. reflexivity. Qed.

Lemma weighted_sum_app (a b : str) :
  weighted_sum (a ++ b) = weighted_sum a + weighted_sum b + len a * sum b.
Proof.
  induction b as [|c b IH] using rev_ind.
  - rewrite app_nil_r, weighted_sum_nil. unfold sum. simpl. lia.
  - rewrite app_assoc, !weighted_sum_snoc, IH, sum_app.
    unfold len. rewrite length_app, Nat2Z.inj_add.
    replace (sum [c]) with c by (unfold sum; simpl; lia). ring.
Qed.

Lemma weighted_sum_cons (c : char) (r : str) :
  weighted_sum (c :: r) = c + weighted_sum r + sum r.
Proof.
  change (c :: r) with ([c] ++ r). rewrite weighted_sum_app.
  replace (weighted_sum [c]) with c
    by (unfold weighted_sum, enumerate, sum; simpl; lia).
  unfold len. simpl length. lia.
Qed.

Lemma calculate_checksum_of_residue (s : str) :
  calculate_checksum s = residue_checksum (weighted_sum s mod 36).
Proof.
  unfold calculate_checksum, residue_checksum. cbv zeta.
  now rewrite Z.mul_mod_idemp_l by lia.
Qed.

Lemma residue_checksum_injective (a b : Z) :
  0 <= a < 36 -> 0 <= b < 36 -> residue_checksum a = residue_checksum b -> a = b.
Proof.
  intros Ha Hb Heq. apply str_eqb_eq in Heq.
  assert (Hall : forallb (fun a => forallb (fun b =>
            implb (str_eqb (residue_checksum a) (residue_checksum b)) (a =? b))
            (range 36)) (range 36) = true) by (vm_compute; reflexivity).
  pose proof (below_by_enumeration 36 _ Hall a Ha) as Hrow. cbv beta in Hrow.
  pose proof (below_by_enumeration 36 _ Hrow b Hb) as Hab. cbv beta in Hab.
  rewrite Heq in Hab. simpl in Hab. now apply Z.eqb_eq.
Qed.

Lemma calculate_checksum_eq_iff (a b : str) :
  calculate_checksum a = calculate_checksum b <->
  weighted_sum a mod 36 = weighted_sum b mod 36.
Proof.
  rewrite !calculate_checksum_of_residue. split.
  - apply residue_checksum_injective; apply Z.mod_pos_bound; lia.
  - now intros ->.
Qed.

(** Two strings have the same checksum exactly when their weighted sums
    agree modulo 36: the checksum carries that residue and nothing else. *)
Theorem checksum_identifies_sum_modulo_36 (a b : str) :
  calculate_checksum a = calculate_checksum b <->
  weighted_sum a mod 36 = weighted_sum b mod 36.
Proof. exact (calculate_checksum_eq_iff a b). Qed.

(** Replacing the character at 1-based position [p] by another leaves the
    checksum unchanged exactly when [p] times the difference of the two
    code points is a multiple of 36, and exchanging two neighbours does so
    exactly when their code points differ by a multiple of 36. *)
Theorem checksum_misses_some_changes (before after : str) (c c' : char) :
  (calculate_checksum (before ++ c' :: after) = calculate_checksum (before ++ c :: after)
   <-> ((c' - c) * (len before + 1)) mod 36 = 0)
  /\ (calculate_checksum (before ++ c' :: c :: after) =
      calculate_checksum (before ++ c :: c' :: after)
      <-> (c - c') mod 36 = 0).
Proof.
  rewrite !calculate_checksum_eq_iff, !weighted_sum_app, !weighted_sum_cons, !sum_cons.
  split.
  - set (x := weighted_sum before + (c' + weighted_sum after + sum after)
              + len before * (c' + sum after)).
    set (y := weighted_sum before + (c + weighted_sum after + sum after)
              + len before * (c + sum after)).
    replace ((c' - c) * (len before + 1)) with (x - y) by (subst x y; ring).
    apply Z.cong_iff_0.
  - set (x := weighted_sum before
              + (c' + (c + weighted_sum after + sum after) + (c + sum after))
              + len before * (c' + (c + sum after))).
    set (y := weighted_sum before
              + (c + (c' + weighted_sum after + sum after) + (c' + sum after))
              + len before * (c + (c' + sum after))).
    replace (c - c') with (x - y) by (subst x y; ring).
    apply Z.cong_iff_0.
Qed.

(** ** The time signature, decoded *)

Lemma is_leap_in_2000s (y : Z) :
  is_leap y = true -> is_leap (y mod 100 + 2000) = true.
Proof.
  unfold is_leap. intros Hy.
  pose proof (Z.div_mod y 100 ltac:(lia)) as Hdiv.
  pose proof (Z.mod_pos_bound y 100 ltac:(lia)) as Hr.
  set (r := y mod 100) in *. set (q := y / 100) in *. clearbody r q.
  apply andb_prop in Hy as [H4 Hc]. apply Z.eqb_eq in H4.
  assert (Hr4 : (r + 2000) mod 4 = 0).
  { replace (r + 2000) with (y + (500 - 25 * q) * 4) by lia.
    now rewrite Z_mod_plus_full. }
  assert (Hr100 : (r + 2000) mod 100 = r).
  { replace (r + 2000) with (r + 20 * 100) by lia.
    rewrite Z_mod_plus_full. apply Z.mod_small. lia. }
  rewrite Hr4, Hr100. simpl (0 =? 0). simpl andb.
  destruct (r =? 0) eqn:Hr0; [|reflexivity].
  apply Z.eqb_eq in Hr0. subst r. reflexivity.
Qed.

Lemma days_in_month_in_2000s (y m : Z) :
  days_in_month y m <= days_in_month (y mod 100 + 2000) m.
Proof.
  unfold days_in_month. destruct (m =? 2); [|lia].
  destruct (is_leap y) eqn:Hy.
  - now rewrite (is_leap_in_2000s y Hy).
  - destruct (is_leap (y mod 100 + 2000)); lia.
Qed.

Section TimeSignature.
Context {U : Unicode}.

Lemma int16_hex_pair (n : Z) :
  0 <= n < 256 -> int16 [hex_digit (n / 16); hex_digit (n mod 16)] = Some n.
Proof.
  intros Hn.
  pose proof (below_by_enumeration 256
                (fun n => match int16 [hex_digit (n / 16); hex_digit (n mod 16)] with
                          | Some v => v =? n
                          | None => false
                          end)) as Hall.
  specialize (Hall ltac:(vm_compute; reflexivity) n Hn). cbv beta in Hall.
  destruct (int16 _) as [v|]; [|discriminate]. apply Z.eqb_eq in Hall. now subst.
Qed.

Lemma int16_hex_digit (m : Z) : 0 <= m < 16 -> int16 [hex_digit m] = Some m.
Proof.
  intros Hm.
  pose proof (below_by_enumeration 16
                (fun m => match int16 [hex_digit m] with
                          | Some v => v =? m
                          | None => false
                          end)) as Hall.
  specialize (Hall ltac:(vm_compute; reflexivity) m Hm). cbv beta in Hall.
  destruct (int16 _) as [v|]; [|discriminate]. apply Z.eqb_eq in Hall. now subst.
Qed.

Lemma decode_encoded_timestamp (d : datetime) :
  valid_date d ->
  decode_timestamp (encode_timestamp d) =
    Some (midnight (year d mod 100 + 2000) (month d) (day d)).
Proof.
  intros Hv. rewrite (encode_timestamp_digits d Hv).
  destruct Hv as (Hy & Hm & Hd).
  pose proof (days_in_month_le_31 (year d) (month d)) as Hdim.
  pose proof (days_in_month_in_2000s (year d) (month d)) as Hcent.
  pose proof (Z.mod_pos_bound (year d) 100 ltac:(lia)) as Hy100.
  unfold decode_timestamp.
  change (slice None (Some 2) [?a; ?b; ?c; ?e; ?f]) with [a; b].
  change (getitem [?a; ?b; ?c; ?e; ?f] 2) with (Ok (A := char) c).
  change (slice (Some 3) None [?a; ?b; ?c; ?e; ?f]) with [e; f].
  rewrite !int16_hex_pair, int16_hex_digit by lia.
  unfold make_datetime, midnight.
  replace (_ && _) with true; [reflexivity|].
  symmetry. repeat (apply andb_true_intro; split);
    first [apply Z.leb_le | apply Z.ltb_lt]; lia.
Qed.

Lemma int16_hex_pair_lower (n : Z) :
  0 <= n < 256 ->
  int16 [ascii_lower (hex_digit (n / 16)); ascii_lower (hex_digit (n mod 16))] = Some n.
Proof.
  intros Hn.
  pose proof (below_by_enumeration 256
                (fun n => match int16 [ascii_lower (hex_digit (n / 16));
                                       ascii_lower (hex_digit (n mod 16))] with
                          | Some v => v =? n
                          | None => false
                          end)) as Hall.
  specialize (Hall ltac:(vm_compute; reflexivity) n Hn). cbv beta in Hall.
  destruct (int16 _) as [v|]; [|discriminate]. apply Z.eqb_eq in Hall. now subst.
Qed.

Lemma int16_hex_digit_lower (m : Z) :
  0 <= m < 16 -> int16 [ascii_lower (hex_digit m)] = Some m.
Proof.
  intros Hm.
  pose proof (below_by_enumeration 16
                (fun m => match int16 [ascii_lower (hex_digit m)] with
                          | Some v => v =? m
                          | None => false
                          end)) as Hall.
  specialize (Hall ltac:(vm_compute; reflexivity) m Hm). cbv beta in Hall.
  destruct (int16 _) as [v|]; [|discriminate]. apply Z.eqb_eq in Hall. now subst.
Qed.

(** [int] reads lower-case digits: a signature in lower case decodes as
    the signature itself. *)
Lemma decode_lower_cased_timestamp (d : datetime) :
  valid_date d ->
  decode_timestamp (map ascii_lower (encode_timestamp d)) =
    Some (midnight (year d mod 100 + 2000) (month d) (day d)).
Proof.
  intros Hv. rewrite (encode_timestamp_digits d Hv).
  destruct Hv as (Hy & Hm & Hd).
  pose proof (days_in_month_le_31 (year d) (month d)) as Hdim.
  pose proof (days_in_month_in_2000s (year d) (month d)) as Hcent.
  pose proof (Z.mod_pos_bound (year d) 100 ltac:(lia)) as Hy100.
  unfold decode_timestamp. cbn [map].
  change (slice None (Some 2) [?a; ?b; ?c; ?e; ?f]) with [a; b].
  change (getitem [?a; ?b; ?c; ?e; ?f] 2) with (Ok (A := char) c).
  change (slice (Some 3) None [?a; ?b; ?c; ?e; ?f]) with [e; f].
  rewrite !int16_hex_pair_lower, int16_hex_digit_lower by lia.
  unfold make_datetime, midnight.
  replace (_ && _) with true; [reflexivity|].
  symmetry. repeat (apply andb_true_intro; split);
    first [apply Z.leb_le | apply Z.ltb_lt]; lia.
Qed.

End TimeSignature.

(** C10, as amended: a key of five segments whose checksum matches and
    whose segment B starts with the rank letter of the tier found by its
    prefix is valid, whatever else the segments hold.  The date is what
    [int(C[:2], 16) + 2000], [int(C[2], 16)] and [int(C[3:], 16)] give: it is
    present exactly when the three parse and are a calendar date, so it is
    absent for every signature shorter than three characters, and present
    for signatures that are not well formed: a signature in lower case reads
    as the date of the signature in upper case. *)
Theorem C10_three_checks_decide_validity
  (U : Unicode) (key name : str) (t : Tier) (A B' C S4 cs : str) (c : char) :
  (find_tier key = Some (name, t) ->
   split (separator t) key = [A; c :: B'; C; S4; cs] ->
   cs = calculate_checksum (A ++ (c :: B') ++ C ++ S4) ->
   encode_tier (id t) = Ok c ->
   validate_membership_key key =
     Ok (Valid (lit "user_" ++ slice (Some 3) None A) name (id t)
               (decode_timestamp C) (slice (Some (-2)) None S4)))
  /\ (forall date,
        decode_timestamp C = Some date <->
        exists y x m dd,
          int16 (slice None (Some 2) C) = Some y /\ getitem C 2 = Ok x /\
          int16 [x] = Some m /\ int16 (slice (Some 3) None C) = Some dd /\
          date = midnight (y + 2000) m dd /\ valid_date date)
  /\ ((length C < 3)%nat -> decode_timestamp C = None)
  /\ (forall d, valid_date d ->
        decode_timestamp (map ascii_lower (encode_timestamp d)) =
          Some (midnight (year d mod 100 + 2000) (month d) (day d))).
Proof.
  split; [|split; [|split]].
  - intros Hf Hs Hcs Hc.
    exact (validate_accepts key name t A B' C S4 cs c Hf Hs Hcs Hc).
  - apply decode_timestamp_some.
  - apply decode_timestamp_short.
  - apply decode_lower_cased_timestamp.
Qed.

(** C10, the claim refuted: the Godfather key with the segments ["GOD"],
    ["C"] and ["-1310"] passes the three checks, its Segment C is not a well
    formed time signature, and the decoder reports the date 16 March 1999;
    the signatures ["1830f"] and ["18300000F"] are not well formed either
    and read as 15 March 2024. *)
Lemma C10_ill_formed_signature_has_a_date :
  well_formed_signature (lit "-1310") = false
  /\ @validate_membership_key ascii_only signed_godfather_key =
       Ok (Valid (lit "user_") (lit "GODFATHER") 3 (Some (midnight 1999 3 16)) [])
  /\ well_formed_signature (lit "1830f") = false
  /\ @decode_timestamp ascii_only (lit "1830f") = Some (midnight 2024 3 15)
  /\ well_formed_signature (lit "18300000F") = false
  /\ @decode_timestamp ascii_only (lit "18300000F") = Some (midnight 2024 3 15).
Proof. repeat split. Qed.

(** The theorem at a Godfather key whose Segment A ends in ["?!"] and
    whose Segment C is ["zz"]: it is valid and carries no date. *)
Lemma C10_odd_godfather_key_is_valid :
  (find_tier odd_godfather_key = Some (lit "GODFATHER", godfather)
   /\ split 8734 odd_godfather_key =
        [lit "GOD?!"; lit "C"; lit "zz"; []; calculate_checksum (lit "GOD?!Czz")]
   /\ encode_tier 3 = Ok 67)
  /\ (@validate_membership_key ascii_only odd_godfather_key =
        Ok (Valid (lit "user_?!") (lit "GODFATHER") 3 None [])
      /\ ((length (lit "zz") < 3)%nat -> @decode_timestamp ascii_only (lit "zz") = None)).
Proof.
  split; [repeat split|].
  pose proof (C10_three_checks_decide_validity ascii_only
                odd_godfather_key (lit "GODFATHER") godfather
                (lit "GOD?!") [] (lit "zz") [] (calculate_checksum (lit "GOD?!Czz")) 67)
    as (Hvalid & _ & Hshort & _).
  split; [exact (Hvalid eq_refl eq_refl eq_refl eq_refl) | exact Hshort].
Defined.

(** The decoder reads back the month and the day of every date and the
    year modulo 100 moved into the years 2000 to 2099, at midnight: a
    registration date comes back with its own year exactly when that year
    lies between 2000 and 2099. *)
Theorem time_signature_round_trip (U : Unicode) (d : datetime) :
  valid_date d ->
  decode_timestamp (encode_timestamp d) =
    Some (midnight (year d mod 100 + 2000) (month d) (day d))
  /\ (year d mod 100 + 2000 = year d <-> 2000 <= year d <= 2099).
Proof.
  intros Hv. split; [exact (decode_encoded_timestamp d Hv)|].
  pose proof (Z.div_mod (year d) 100 ltac:(lia)) as Hdiv.
  pose proof (Z.mod_pos_bound (year d) 100 ltac:(lia)) as Hr.
  lia.
Qed.

(** The theorem at 15 March 2024. *)
Lemma time_signature_round_trip_2024 :
  valid_date date_2024_03_15 /\
  (@decode_timestamp ascii_only (encode_timestamp date_2024_03_15) =
     Some (midnight 2024 3 15)
   /\ (2024 mod 100 + 2000 = 2024 <-> 2000 <= 2024 <= 2099)).
Proof.
  assert (Hv : valid_date date_2024_03_15)
    by (repeat split; vm_compute; discriminate).
  split; [exact Hv | exact (time_signature_round_trip ascii_only date_2024_03_15 Hv)].
Defined.

(** ** The unique pattern *)

Lemma Forall2_nth {A B} (P : A -> B -> Prop) (l : list A) (q : list B) (a : A) (b : B) :
  Forall2 P l q -> forall n, (n < length l)%nat -> P (nth n l a) (nth n q b).
Proof.
  induction 1 as [|x y l q Hxy _ IH]; intros [|n] Hn; simpl in *; try lia.
  - exact Hxy.
  - apply IH. lia.
Qed.

Lemma nth_range (n m : nat) : (n < m)%nat -> nth n (range m) 0 = Z.of_nat n.
Proof.
  intros Hn. unfold range.
  change 0 with (Z.of_nat 0). rewrite map_nth, seq_nth by exact Hn. reflexivity.
Qed.

Section PatternShape.
Context {R : Random}.

Lemma pattern_loop_draws (chars : str) (indices : list Z) (acc : str) (st : rng_state) :
  chars <> [] ->
  exists q st',
    pattern_loop chars indices acc st = (Ok (acc ++ q), st') /\
    Forall2 (fun i c => In c (if i mod 4 =? 3 then SPECIAL_CHARS else chars)) indices q.
Proof.
  intros Hne. revert acc st.
  induction indices as [|i rest IH]; intros acc st; simpl.
  - exists [], st. rewrite app_nil_r. split; [reflexivity | constructor].
  - unfold bind.
    assert (Hdraw : exists c st',
              (if i mod 4 =? 3 then choice SPECIAL_CHARS else choice chars) st = (Ok c, st')
              /\ In c (if i mod 4 =? 3 then SPECIAL_CHARS else chars)).
    { destruct (i mod 4 =? 3).
      - apply choice_in. discriminate.
      - apply choice_in. exact Hne. }
    destruct Hdraw as (c & st' & -> & Hc).
    destruct (IH (acc ++ [c]) st') as (q & st'' & -> & Hq).
    exists (c :: q), st''. rewrite <- app_assoc. split; [reflexivity|].
    constructor; assumption.
Qed.

End PatternShape.

(** The unique pattern has 12 characters: those at the indices 3, 7 and 11
    come from the special characters, all others from the capital letters
    and the digits. *)
Theorem unique_pattern_shape (R : Random) (a : str) (st : rng_state) :
  exists p,
    generate_unique_pattern a st = (Ok p, state_after_pattern a) /\
    length p = 12%nat /\
    forall n, (n < 12)%nat ->
      In (nth n p 0)
         (if Z.of_nat n mod 4 =? 3 then SPECIAL_CHARS else ascii_uppercase ++ digits).
Proof.
  rewrite generate_unique_pattern_reseeds. unfold state_after_pattern.
  destruct (pattern_loop_draws (ascii_uppercase ++ digits) (range 12) [] (seed_state a)
              ltac:(discriminate)) as (q & st' & Hrun & Hq).
  exists q. rewrite Hrun. split; [reflexivity|].
  pose proof (Forall2_length Hq) as Hlen. split; [now rewrite <- Hlen|].
  intros n Hn.
  pose proof (Forall2_nth _ _ _ 0 0 Hq n Hn) as Hnth. cbv beta in Hnth.
  now rewrite (nth_range n 12 Hn) in Hnth.
Qed.

(** ** When the encoder raises *)

Lemma utf8_char_result (c : char) :
  if is_surrogate c then utf8_char c = Raise UnicodeEncodeError
  else exists b, utf8_char c = Ok b.
Proof.
  unfold is_surrogate, utf8_char.
  destruct (c <? 128) eqn:E1.
  { replace (55296 <=? c) with false by (symmetry; apply Z.leb_gt; lia). simpl. eauto. }
  destruct (c <? 2048) eqn:E2.
  { replace (55296 <=? c) with false by (symmetry; apply Z.leb_gt; lia). simpl. eauto. }
  destruct ((55296 <=? c) && (c <=? 57343)); [reflexivity|].
  destruct (c <? 65536); eauto.
Qed.

Lemma encode_result (s : str) :
  if existsb is_surrogate s then encode s = Raise UnicodeEncodeError
  else exists b, encode s = Ok b.
Proof.
  induction s as [|c s IH]; simpl; [eauto|].
  pose proof (utf8_char_result c) as Hc.
  destruct (is_surrogate c); simpl.
  - now rewrite Hc.
  - destruct Hc as [b ->]. simpl.
    destruct (existsb is_surrogate s).
    + now rewrite IH.
    + destruct IH as [bs ->]. simpl. eauto.
Qed.

Section EncoderErrors.
Context {U : Unicode} {H : Sha256} {R : Random} {K : Clock}.

Lemma create_user_hash_result (user_id : str) :
  if existsb is_surrogate user_id
  then create_user_hash user_id = Raise UnicodeEncodeError
  else exists h, create_user_hash user_id = Ok h.
Proof.
  unfold create_user_hash. pose proof (encode_result user_id) as He.
  destruct (existsb is_surrogate user_id).
  - now rewrite He.
  - destruct He as [b ->]. simpl. eauto.
Qed.

(** What the encoder returns or raises: the tier is checked first, then
    the user id, then the date. *)
Lemma generate_membership_key_outcome (user_id tier_name : str) (d : datetime)
  (attrs : option dict) (st : rng_state) :
  let outcome := fst (generate_membership_key user_id tier_name d attrs st) in
  if tier_known tier_name
  then if existsb is_surrogate user_id
       then outcome = Raise UnicodeEncodeError
       else match timestamp_str d with
            | Raise e => outcome = Raise e
            | Ok _ => exists key, outcome = Ok key
            end
  else outcome = Raise KeyError.
Proof.
  cbv zeta. rewrite tier_known_lookup.
  pose proof (create_user_hash_result user_id) as Hh.
  destruct (lookup USER_TIERS (upper tier_name)) as [t|] eqn:Ht.
  - destruct (existsb is_surrogate user_id).
    + now rewrite generate_membership_key_unfold, Ht, Hh.
    + destruct Hh as [h Hh]. destruct (timestamp_str d) as [ts|e] eqn:Hts.
      * destruct (generate_membership_key_returns user_id tier_name d attrs st t h ts
                    Ht Hh Hts) as (c & p & pe & _ & _ & _ & ->). eauto.
      * rewrite generate_membership_key_unfold, Ht, Hh.
        destruct (encode_tier_of_table _ _ (lookup_in _ _ _ Ht)) as (c & -> & _).
        now rewrite Hts.
  - now rewrite generate_membership_key_unfold, Ht.
Qed.

End EncoderErrors.

Ltac settle_outcome :=
  repeat split; intros;
  repeat match goal with
         | Hc : _ /\ _ |- _ => destruct Hc
         | Hc : exists _, _ |- _ => destruct Hc
         end;
  repeat split; try discriminate; try congruence; eauto.

(** The encoder raises [KeyError] exactly for an unknown tier name, raises
    [UnicodeEncodeError] exactly for a known tier and a user id that holds
    a surrogate code point, raises what [timestamp] raises exactly for a
    known tier, a user id without surrogates and a date that has no
    timestamp, and returns a key in every other case. *)
Theorem encoder_raises_exactly
  (U : Unicode) (H : Sha256) (R : Random) (K : Clock)
  (user_id tier_name : str) (d : datetime) (attrs : option dict) (st : rng_state) :
  let outcome := fst (generate_membership_key user_id tier_name d attrs st) in
  (outcome = Raise KeyError <-> tier_known tier_name = false)
  /\ (outcome = Raise UnicodeEncodeError <->
      tier_known tier_name = true /\ existsb is_surrogate user_id = true)
  /\ (forall e, e <> KeyError -> e <> UnicodeEncodeError ->
        (outcome = Raise e <->
         tier_known tier_name = true /\ existsb is_surrogate user_id = false /\
         timestamp_str d = Raise e))
  /\ ((exists key, outcome = Ok key) <->
      tier_known tier_name = true /\ existsb is_surrogate user_id = false /\
      exists timestamp, timestamp_str d = Ok timestamp).
Proof.
  intros outcome.
  pose proof (generate_membership_key_outcome user_id tier_name d attrs st) as Hout.
  cbv zeta in Hout. fold outcome in Hout.
  pose proof (timestamp_raises d) as Hlaw.
  destruct (tier_known tier_name), (existsb is_surrogate user_id);
    try (rewrite Hout; settle_outcome).
  destruct (timestamp_str d) as [ts|e0].
  - destruct Hout as [key ->]. settle_outcome.
  - rewrite Hout. destruct (Hlaw e0 eq_refl) as [->|[->| ->]]; settle_outcome.
Qed.

(** The theorem at 1 January of the year 1 with the stand-in library,
    whose clock refuses that day: the tier is known, the user id can be
    encoded, and the encoder raises the [ValueError] of [timestamp]. *)
Lemma encoder_refuses_first_day_of_year_one :
  fst (@generate_membership_key ascii_only toy_digest counter_random fixed_clock
         (lit "alice123") (lit "Godfather") date_0001_01_01 None 0) = Raise ValueError.
Proof.
  apply (proj1 (proj2 (proj2 (encoder_raises_exactly
                                ascii_only toy_digest counter_random fixed_clock
                                (lit "alice123") (lit "Godfather") date_0001_01_01 None 0)))
           ValueError ltac:(discriminate) ltac:(discriminate)).
  repeat split.
Defined.



(** ** The gates of the decoder *)

Lemma index_uppercase_inside (c : char) :
  65 <= c <= 90 -> index ascii_uppercase c = Ok (c - 65).
Proof.
  intros Hc.
  pose proof (below_by_enumeration 26
                (fun i => match index ascii_uppercase (65 + i) with
                          | Ok j => j =? i
                          | Raise _ => false
                          end) ltac:(vm_compute; reflexivity) (c - 65) ltac:(lia)) as Hi.
  cbv beta in Hi. replace (65 + (c - 65)) with c in Hi by lia.
  destruct (index ascii_uppercase c) as [j|e]; [|discriminate].
  apply Z.eqb_eq in Hi. now subst.
Qed.

Lemma index_from_absent (i : Z) (s : str) (c : char) :
  ~ In c s -> index_from i s c = Raise ValueError.
Proof.
  revert i. induction s as [|x s IH]; intros i Hn; simpl; [reflexivity|].
  destruct (x =? c) eqn:E.
  - apply Z.eqb_eq in E. exfalso. apply Hn. now left.
  - apply IH. intros Hin. apply Hn. now right.
Qed.

Lemma index_uppercase_outside (c : char) :
  c < 65 \/ 90 < c -> index ascii_uppercase c = Raise ValueError.
Proof.
  intros Hc. apply index_from_absent. intros Hin.
  assert (Hall : forallb (fun x => (65 <=? x) && (x <=? 90)) ascii_uppercase = true)
    by (vm_compute; reflexivity).
  rewrite forallb_forall in Hall. apply Hall in Hin. lia.
Qed.

Lemma encode_tier_inside (i : Z) : 1 <= i <= 26 -> encode_tier i = Ok (64 + i).
Proof.
  intros Hi.
  pose proof (below_by_enumeration 26
                (fun j => match encode_tier (1 + j) with
                          | Ok c => c =? 65 + j
                          | Raise _ => false
                          end) ltac:(vm_compute; reflexivity) (i - 1) ltac:(lia)) as Hj.
  cbv beta in Hj. replace (1 + (i - 1)) with i in Hj by lia.
  destruct (encode_tier i) as [c|e]; [|discriminate].
  apply Z.eqb_eq in Hj. f_equal. lia.
Qed.

Lemma split_five (sep : char) (s : str) :
  length (split sep s) = 5%nat ->
  exists A B C S4 cs, split sep s = [A; B; C; S4; cs].
Proof.
  destruct (split sep s) as [|A [|B [|C [|S4 [|cs [|x r]]]]]]; try discriminate.
  intros _. now exists A, B, C, S4, cs.
Qed.

Lemma join_split (sep : char) (s : str) : join sep (split sep s) = s.
Proof.
  induction s as [|c s IH]; [reflexivity|]. simpl.
  pose proof (length_split sep s) as Hlen.
  destruct (c =? sep) eqn:E.
  - apply Z.eqb_eq in E. subst c.
    destruct (split sep s) as [|p ps]; [discriminate|].
    change (join sep ([] :: p :: ps)) with ([] ++ sep :: join sep (p :: ps)).
    now rewrite IH.
  - destruct (split sep s) as [|p ps]; [discriminate|].
    destruct ps as [|p' ps]; simpl in *; now rewrite <- IH.
Qed.

Lemma startswith_before_separator (A r p : str) (sep : char) :
  ~ In sep p -> startswith (A ++ sep :: r) p = true -> startswith A p = true.
Proof.
  revert A. induction p as [|x p IH]; intros A Hn Hs; [reflexivity|].
  destruct A as [|a A]; simpl in *.
  - apply andb_prop in Hs as [Hx _]. apply Z.eqb_eq in Hx. exfalso. apply Hn. now left.
  - apply andb_prop in Hs as [Hx Hs]. rewrite Hx. simpl.
    apply IH; [|exact Hs]. intros Hin. apply Hn. now right.
Qed.

Lemma length_slice_last_two (s : str) :
  (length (slice (Some (-2)%Z) None s) <= 2)%nat.
Proof.
  unfold slice. rewrite clamp_minus_two. unfold len.
  rewrite length_firstn. lia.
Qed.

Section Gates.
Context {U : Unicode}.

(** After the checksum gate the first character of segment B decides. *)
Lemma validate_after_checksum (key name : str) (t : Tier) (A B C S4 : str) :
  find_tier key = Some (name, t) ->
  split (separator t) key = [A; B; C; S4; calculate_checksum (A ++ B ++ C ++ S4)] ->
  validate_membership_key key =
    match B with
    | [] => Raise IndexError
    | c :: _ =>
        if (65 <=? c) && (c <=? 90)
        then if c - 64 =? id t
             then Ok (Valid (lit "user_" ++ slice (Some 3) None A) name (id t)
                            (decode_timestamp C) (slice (Some (-2)) None S4))
             else Ok (Invalid (lit "Tier identifier mismatch"))
        else Raise ValueError
    end.
Proof.
  intros Hf Hs. rewrite (validate_five_segments _ _ _ _ _ _ _ _ Hf Hs).
  rewrite str_eqb_refl. simpl negb. cbv iota.
  destruct B as [|c B']; [reflexivity|].
  change (getitem (c :: B') 0) with (Ok (A := char) c). simpl rbind.
  destruct ((65 <=? c) && (c <=? 90)) eqn:Hc.
  - rewrite index_uppercase_inside by lia. simpl rbind.
    replace (c - 65 + 1) with (c - 64) by lia.
    destruct (c - 64 =? id t); reflexivity.
  - rewrite index_uppercase_outside by lia. reflexivity.
Qed.

Lemma validate_checksum_mismatch (key name : str) (t : Tier) (A B C S4 cs : str) :
  find_tier key = Some (name, t) ->
  split (separator t) key = [A; B; C; S4; cs] ->
  cs <> calculate_checksum (A ++ B ++ C ++ S4) ->
  validate_membership_key key = Ok (Invalid (lit "Invalid checksum")).
Proof.
  intros Hf Hs Hcs. rewrite (validate_five_segments _ _ _ _ _ _ _ _ Hf Hs).
  destruct (str_eqb cs _) eqn:E; [|reflexivity].
  apply str_eqb_eq in E. contradiction.
Qed.

End Gates.

(** The decoder raises in two cases only, both on a key of five segments
    whose checksum matches: [IndexError] when segment B is empty, and
    [ValueError] when segment B starts with a character that is not a
    capital ASCII letter. *)
Theorem decoder_raises_exactly (U : Unicode) (key : str) (e : exn) :
  validate_membership_key key = Raise e <->
  exists name t A B C S4,
    find_tier key = Some (name, t) /\
    split (separator t) key = [A; B; C; S4; calculate_checksum (A ++ B ++ C ++ S4)] /\
    ((B = [] /\ e = IndexError) \/
     (exists c B', B = c :: B' /\ (c < 65 \/ 90 < c) /\ e = ValueError)).
Proof.
  split.
  - intros Hv.
    destruct (find_tier key) as [[name t]|] eqn:Hf.
    2:{ unfold validate_membership_key in Hv. rewrite Hf in Hv. discriminate. }
    destruct (Nat.eq_dec (length (split (separator t) key)) 5) as [Hlen|Hlen].
    2:{ rewrite (validate_wrong_segment_count _ _ _ Hf Hlen) in Hv. discriminate. }
    destruct (split_five _ _ Hlen) as (A & B & C & S4 & cs & Hs).
    destruct (str_eqb cs (calculate_checksum (A ++ B ++ C ++ S4))) eqn:Hcs.
    2:{ rewrite (validate_checksum_mismatch _ _ _ _ _ _ _ _ Hf Hs) in Hv; [discriminate|].
        intros Heq. apply str_eqb_eq in Heq. congruence. }
    apply str_eqb_eq in Hcs. subst cs.
    exists name, t, A, B, C, S4. split; [reflexivity|]. split; [exact Hs|].
    rewrite (validate_after_checksum _ _ _ _ _ _ _ Hf Hs) in Hv.
    destruct B as [|c B']; [left; split; congruence|]. right.
    destruct ((65 <=? c) && (c <=? 90)) eqn:Hc.
    + destruct (c - 64 =? id t); discriminate.
    + exists c, B'. split; [reflexivity|]. split; [lia | congruence].
  - intros (name & t & A & B & C & S4 & Hf & Hs & Hcase).
    rewrite (validate_after_checksum _ _ _ _ _ _ _ Hf Hs).
    destruct Hcase as [[-> ->] | (c & B' & -> & Hc & ->)]; [reflexivity|].
    replace ((65 <=? c) && (c <=? 90)) with false by (symmetry; lia). reflexivity.
Qed.

(** Once the tier of a key is found, the decoder answers
    [Invalid key structure] exactly when the key does not hold the
    separator of that tier four times. *)
Theorem decoder_counts_separators (U : Unicode) (key name : str) (t : Tier) :
  find_tier key = Some (name, t) ->
  (validate_membership_key key = Ok (Invalid (lit "Invalid key structure")) <->
   occurrences (separator t) key <> 4%nat).
Proof.
  intros Hf. split.
  - intros Hv Hocc.
    assert (Hlen : length (split (separator t) key) = 5%nat)
      by (rewrite length_split; lia).
    destruct (split_five _ _ Hlen) as (A & B & C & S4 & cs & Hs).
    rewrite (validate_five_segments _ _ _ _ _ _ _ _ Hf Hs) in Hv.
    destruct (negb _); [discriminate|].
    destruct (getitem B 0) as [c|e]; simpl in Hv; [|discriminate].
    destruct (index ascii_uppercase c) as [i|e]; simpl in Hv; [|discriminate].
    destruct (negb _); discriminate.
  - intros Hocc. apply (validate_wrong_segment_count _ _ _ Hf).
    rewrite length_split. lia.
Qed.

(** The theorem at ["ARK-a-b-c"], a key of the Archivist tier with three
    separators. *)
Lemma decoder_counts_three_separators :
  find_tier (lit "ARK-a-b-c") = Some (lit "ARCHIVIST", archivist) /\
  (@validate_membership_key ascii_only (lit "ARK-a-b-c") =
     Ok (Invalid (lit "Invalid key structure")) <->
   occurrences 45 (lit "ARK-a-b-c") <> 4%nat).
Proof.
  split; [reflexivity|].
  exact (decoder_counts_separators ascii_only (lit "ARK-a-b-c") (lit "ARCHIVIST")
           archivist eq_refl).
Defined.

(** A key of five segments with a matching checksum whose segment B starts
    with a capital ASCII letter other than the rank letter of the tier its
    prefix names is answered with [Tier identifier mismatch]. *)
Theorem decoder_rejects_foreign_rank_letter
  (U : Unicode) (key name : str) (t : Tier) (A B' C S4 : str) (c : char) :
  find_tier key = Some (name, t) ->
  split (separator t) key =
    [A; c :: B'; C; S4; calculate_checksum (A ++ (c :: B') ++ C ++ S4)] ->
  65 <= c <= 90 ->
  c - 64 <> id t ->
  validate_membership_key key = Ok (Invalid (lit "Tier identifier mismatch")).
Proof.
  intros Hf Hs Hc Hid. rewrite (validate_after_checksum _ _ _ _ _ _ _ Hf Hs).
  replace ((65 <=? c) && (c <=? 90)) with true by (symmetry; lia).
  replace (c - 64 =? id t) with false by (symmetry; apply Z.eqb_neq; exact Hid).
  reflexivity.
Qed.

(** The theorem at an Archivist key whose segment B is ["C"], the rank
    letter of the Godfather tier. *)
Lemma decoder_rejects_godfather_letter_in_archivist_key :
  let key := format_key (lit "ARK") (lit "C") [] [] []
               (calculate_checksum (lit "ARKC")) archivist in
  (find_tier key = Some (lit "ARCHIVIST", archivist) /\
   split 45 key = [lit "ARK"; lit "C"; []; []; calculate_checksum (lit "ARKC")] /\
   65 <= 67 <= 90 /\ 67 - 64 <> 1) /\
  @validate_membership_key ascii_only key = Ok (Invalid (lit "Tier identifier mismatch")).
Proof.
  intros key.
  assert (Hc : 65 <= 67 <= 90) by lia.
  assert (Hid : 67 - 64 <> 1) by lia.
  split; [repeat split; try reflexivity; lia|].
  exact (decoder_rejects_foreign_rank_letter ascii_only key (lit "ARCHIVIST") archivist
           (lit "ARK") [] [] [] 67 eq_refl eq_refl Hc Hid).
Defined.

(** The tier of a key does not depend on the order of the table: a row is
    found exactly when the key starts with its prefix and holds its
    separator, and no key fits two rows. *)
Theorem find_tier_is_unambiguous (key k : str) (t : Tier) :
  (find_tier key = Some (k, t) <->
   In (k, t) USER_TIERS /\
   startswith key (prefix t) = true /\ contains key (separator t) = true)
  /\ (forall k' t', In (k, t) USER_TIERS -> In (k', t') USER_TIERS ->
        startswith key (prefix t) = true -> startswith key (prefix t') = true ->
        (k, t) = (k', t')).
Proof.
  split.
  - split.
    + unfold find_tier. intros Hf. apply find_some in Hf as [Hin Hp].
      apply andb_prop in Hp. tauto.
    + intros (Hin & Hs & Hc). now apply find_tier_by_prefix.
  - intros k' t' Hin Hin' Hs Hs'.
    apply startswith_inv in Hs as [r Hr]. apply startswith_inv in Hs' as [r' Hr'].
    rewrite Hr in Hr'. simpl in Hin, Hin'.
    destruct Hin as [E|[E|[E|[E|[]]]]]; injection E as <- <-;
      destruct Hin' as [E'|[E'|[E'|[E'|[]]]]]; injection E' as <- <-;
      try reflexivity; literals; cbn [prefix app] in Hr'; discriminate Hr'.
Qed.

(** Every key the decoder accepts is laid out as [format_key] lays out a
    key of the tier it reports: Segment A starts with the prefix of that
    tier, segment B with its rank letter, the last segment is the checksum
    of the others, and the reported fields are read off the segments; the
    personal element has at most two characters and the key holds the
    separator exactly four times. *)
Theorem decoder_accepts_only_formatted_keys
  (U : Unicode) (key user_id name : str) (lvl : Z) (d : option datetime) (p : str) :
  validate_membership_key key = Ok (Valid user_id name lvl d p) ->
  exists t A c B' C D,
    In (name, t) USER_TIERS /\ lvl = id t /\ encode_tier (id t) = Ok c /\
    startswith A (prefix t) = true /\
    key = format_key A (c :: B') C D p
            (calculate_checksum (A ++ (c :: B') ++ C ++ D ++ p)) t /\
    user_id = lit "user_" ++ slice (Some 3) None A /\
    d = decode_timestamp C /\
    (length p <= 2)%nat /\
    occurrences (separator t) key = 4%nat.
Proof.
  intros Hv.
  destruct (find_tier key) as [[n t]|] eqn:Hf.
  2:{ unfold validate_membership_key in Hv. rewrite Hf in Hv. discriminate. }
  destruct (Nat.eq_dec (length (split (separator t) key)) 5) as [Hlen|Hlen].
  2:{ rewrite (validate_wrong_segment_count _ _ _ Hf Hlen) in Hv. discriminate. }
  destruct (split_five _ _ Hlen) as (A & B & C & S4 & cs & Hs).
  destruct (str_eqb cs (calculate_checksum (A ++ B ++ C ++ S4))) eqn:Hcs.
  2:{ rewrite (validate_checksum_mismatch _ _ _ _ _ _ _ _ Hf Hs) in Hv; [discriminate|].
      intros Heq. apply str_eqb_eq in Heq. congruence. }
  apply str_eqb_eq in Hcs. subst cs.
  rewrite (validate_after_checksum _ _ _ _ _ _ _ Hf Hs) in Hv.
  destruct B as [|c B']; [discriminate|].
  destruct ((65 <=? c) && (c <=? 90)) eqn:Hc; [|discriminate].
  destruct (c - 64 =? id t) eqn:Hid; [|discriminate].
  apply Z.eqb_eq in Hid. injection Hv as <- <- <- <- <-.
  destruct (find_tier_some _ _ _ Hf) as (Hin & Hstart & _).
  pose proof (join_split (separator t) key) as Hjoin. rewrite Hs in Hjoin.
  exists t, A, c, B', C, (slice None (Some (-2)) S4).
  rewrite slice_last_two_rejoin.
  split; [exact Hin|]. split; [reflexivity|].
  split; [rewrite <- Hid; replace (c - 64) with (c - 64 + 0) by lia;
          rewrite encode_tier_inside by lia; f_equal; lia|].
  split.
  { rewrite <- Hjoin in Hstart. simpl in Hstart.
    exact (startswith_before_separator _ _ _ _ (separator_not_in_prefix _ _ Hin) Hstart). }
  split.
  { rewrite <- Hjoin at 1. unfold format_key. simpl.
    rewrite <- (slice_last_two_rejoin S4) at 1. now rewrite <- !app_assoc. }
  repeat split; [apply length_slice_last_two|].
  rewrite length_split in Hlen. lia.
Qed.

(** The theorem at the key ["ARK-A--x-1212"]. *)
Lemma decoder_accepts_formatted_archivist_key :
  @validate_membership_key ascii_only (lit "ARK-A--x-1212") =
    Ok (Valid (lit "user_") (lit "ARCHIVIST") 1 None (lit "x")) /\
  exists t A c B' C D,
    In (lit "ARCHIVIST", t) USER_TIERS /\ 1 = id t /\ encode_tier (id t) = Ok c /\
    startswith A (prefix t) = true /\
    lit "ARK-A--x-1212" =
      format_key A (c :: B') C D (lit "x")
        (calculate_checksum (A ++ (c :: B') ++ C ++ D ++ lit "x")) t /\
    lit "user_" = lit "user_" ++ slice (Some 3) None A /\
    None = @decode_timestamp ascii_only C /\
    (length (lit "x") <= 2)%nat /\
    occurrences (separator t) (lit "ARK-A--x-1212") = 4%nat.
Proof.
  split; [reflexivity|].
  exact (decoder_accepts_only_formatted_keys ascii_only (lit "ARK-A--x-1212")
           (lit "user_") (lit "ARCHIVIST") 1 None (lit "x") eq_refl).
Defined.

(** ** The adapter on every tier *)

Section Presentation.
Context {U : Unicode}.

Lemma adapter_on_valid_key (key : str) (user_data : option dict)
  (user_id name : str) (lvl : Z) (d : option datetime) (p : str) :
  validate_membership_key key = Ok (Valid user_id name lvl d p) ->
  exists style colour,
    In (name, (lvl, style, colour)) tier_presentation /\
    generate_premium_qr_code key user_data =
      Ok (QrSuccess
            {| membershipKey := key;
               validationURL := lit "https://nexus.io/validate/" ++ key;
               tier := name |}
            {| style := style;
               mainColor := colour;
               patternComplexity := 2 * lvl;
               tierLevel := lvl |}
            name lvl).
Proof.
  intros Hv. unfold generate_premium_qr_code. rewrite Hv. simpl rbind.
  apply validate_valid_inv in Hv as (t & Hin & ->). simpl in Hin.
  destruct Hin as [E|[E|[E|[E|[]]]]]; injection E as <- <-; cbn [id];
    eexists _, _; (split; [|reflexivity]); simpl; tauto.
Qed.

End Presentation.

(** On every key the decoder accepts the adapter succeeds with the row of
    the tier: the lower-cased tier name as style, the colour of the tier
    and never the fallback colour, and a pattern complexity of twice the
    rank, which the cap of 10 never cuts. *)
Theorem adapter_presents_every_tier
  (U : Unicode) (key : str) (user_data : option dict)
  (user_id name : str) (lvl : Z) (d : option datetime) (p : str) :
  validate_membership_key key = Ok (Valid user_id name lvl d p) ->
  exists style colour,
    In (name, (lvl, style, colour)) tier_presentation /\
    colour <> lit "#10b981" /\
    generate_premium_qr_code key user_data =
      Ok (QrSuccess
            {| membershipKey := key;
               validationURL := lit "https://nexus.io/validate/" ++ key;
               tier := name |}
            {| style := style;
               mainColor := colour;
               patternComplexity := 2 * lvl;
               tierLevel := lvl |}
            name lvl).
Proof.
  intros Hv.
  destruct (adapter_on_valid_key key user_data _ _ _ _ _ Hv)
    as (style & colour & Hin & Hqr).
  exists style, colour. split; [exact Hin|]. split; [|exact Hqr].
  simpl in Hin.
  destruct Hin as [E|[E|[E|[E|[]]]]]; injection E as _ _ _ <-; discriminate.
Qed.

(** The theorem at the Archivist key ["ARK-A--x-1212"]. *)
Lemma adapter_presents_archivist_key :
  @validate_membership_key ascii_only (lit "ARK-A--x-1212") =
    Ok (Valid (lit "user_") (lit "ARCHIVIST") 1 None (lit "x")) /\
  exists style colour,
    In (lit "ARCHIVIST", (1, style, colour)) tier_presentation /\
    colour <> lit "#10b981" /\
    @generate_premium_qr_code ascii_only (lit "ARK-A--x-1212") None =
      Ok (QrSuccess
            {| membershipKey := lit "ARK-A--x-1212";
               validationURL := lit "https://nexus.io/validate/" ++ lit "ARK-A--x-1212";
               tier := lit "ARCHIVIST" |}
            {| style := style;
               mainColor := colour;
               patternComplexity := 2 * 1;
               tierLevel := 1 |}
            (lit "ARCHIVIST") 1).
Proof.
  split; [reflexivity|].
  exact (adapter_presents_every_tier ascii_only (lit "ARK-A--x-1212") None
           (lit "user_") (lit "ARCHIVIST") 1 None (lit "x") eq_refl).
Defined.

(** ** The layout of a generated key *)

Lemma length_slice_between (a b : Z) (s : str) :
  0 <= a <= b -> b <= len s ->
  length (slice (Some a) (Some b) s) = Z.to_nat (b - a).
Proof.
  intros Hab Hb. unfold slice, clamp.
  replace (a <? 0) with false by (symmetry; apply Z.ltb_ge; lia).
  replace (b <? 0) with false by (symmetry; apply Z.ltb_ge; lia).
  rewrite !Z.min_l by lia.
  rewrite length_firstn, length_skipn. unfold len in Hb. lia.
Qed.

Lemma length_slice_prefix (b : Z) (s : str) :
  0 <= b <= len s -> length (slice None (Some b) s) = Z.to_nat b.
Proof.
  intros Hb. unfold slice, clamp.
  replace (b <? 0) with false by (symmetry; apply Z.ltb_ge; lia).
  rewrite Z.min_l, Z.sub_0_r by lia. simpl skipn.
  rewrite length_firstn. unfold len in Hb. lia.
Qed.

Lemma length_calculate_checksum (s : str) :
  (2 <= length (calculate_checksum s) <= 4)%nat.
Proof.
  unfold calculate_checksum.
  pose proof (Z.mod_pos_bound (weighted_sum s) 36 ltac:(lia)).
  pose proof (Z.mod_pos_bound (weighted_sum s * 13) 36 ltac:(lia)).
  rewrite !format_X_byte, length_app by lia. unfold hex_render.
  destruct (_ <? 16), (_ <? 16); simpl; lia.
Qed.

Lemma length_format_key (A B C D P cs : str) (t : Tier) :
  length (format_key A B C D P cs t) =
    (length A + length B + length C + length D + length P + length cs + 4)%nat.
Proof. unfold format_key. repeat (rewrite length_app; simpl length). lia. Qed.

Lemma length_prefix (k : str) (t : Tier) : In (k, t) USER_TIERS -> length (prefix t) = 3%nat.
Proof. simpl. intros [E|[E|[E|[E|[]]]]]; injection E as _ <-; reflexivity. Qed.

Lemma occurrences_zero (sep : char) (s : str) : occurrences sep s = 0%nat -> ~ In sep s.
Proof. intros Hz Hin. apply occurrences_positive in Hin. lia. Qed.

Lemma slice_last_two_of_app (x y : str) :
  length y = 2%nat -> slice (Some (-2)) None (x ++ y) = y.
Proof.
  intros Hy. unfold slice. rewrite clamp_minus_two. unfold len.
  rewrite length_app, Hy.
  replace (Z.max 0 (Z.of_nat (length x + 2) - 2)) with (Z.of_nat (length x)) by lia.
  rewrite Nat2Z.id, skipn_app, skipn_all, Nat.sub_diag. simpl.
  apply firstn_all2. lia.
Qed.

Lemma length_slice_last_two_of_long (s : str) :
  (2 <= length s)%nat -> length (slice (Some (-2)%Z) None s) = 2%nat.
Proof.
  intros Hs. unfold slice. rewrite clamp_minus_two. unfold len.
  rewrite length_firstn, length_skipn. lia.
Qed.

Section Layout.
Context {U : Unicode} {H : Sha256} {R : Random} {K : Clock}.

Lemma generate_unique_pattern_length (a : str) (st : rng_state) (p : str) :
  fst (generate_unique_pattern a st) = Ok p -> length p = 12%nat.
Proof.
  rewrite generate_unique_pattern_reseeds.
  destruct (pattern_loop_draws (ascii_uppercase ++ digits) (range 12) [] (seed_state a)
              ltac:(discriminate)) as (q & st' & -> & Hq).
  intros [= <-]. now rewrite <- (Forall2_length Hq).
Qed.

(** A returned key comes from a known tier, a user id with a hash and a
    date with a timestamp. *)
Lemma generate_membership_key_inv (user_id tier_name : str) (d : datetime)
  (attrs : option dict) (st : rng_state) (key : str) :
  fst (generate_membership_key user_id tier_name d attrs st) = Ok key ->
  exists t h ts, lookup USER_TIERS (upper tier_name) = Some t /\
                 create_user_hash user_id = Ok h /\
                 timestamp_str d = Ok ts.
Proof.
  rewrite generate_membership_key_unfold.
  destruct (lookup USER_TIERS (upper tier_name)) as [t|]; [|discriminate].
  destruct (create_user_hash user_id) as [h|e]; [|discriminate].
  destruct (encode_tier (id t)) as [c|e]; [|discriminate].
  destruct (timestamp_str d) as [ts|e]; [|discriminate].
  intros _. now exists t, h, ts.
Qed.

End Layout.

(** A key generated for a date that has a timestamp has Segment A of 6
    characters, segment B of 5, the time signature of 5, Segment D of 4 and
    a checksum of 2 to 4: with the four separators its length is 24 plus
    the lengths of the personal element and of the checksum, for a user
    hash of six characters, which is what a digest of three bytes or more
    gives. *)
Theorem generated_key_layout
  (U : Unicode) (H : Sha256) (R : Random) (K : Clock)
  (user_id tier_name : str) (d : datetime) (attrs : option dict) (st : rng_state)
  (t : Tier) (h timestamp : str) :
  lookup USER_TIERS (upper tier_name) = Some t ->
  create_user_hash user_id = Ok h ->
  length h = 6%nat ->
  valid_date d ->
  timestamp_str d = Ok timestamp ->
  exists A B C D pe cs,
    fst (generate_membership_key user_id tier_name d attrs st) =
      Ok (format_key A B C D pe cs t) /\
    generate_personal_element attrs user_id = Ok pe /\
    length A = 6%nat /\ length B = 5%nat /\ length C = 5%nat /\ length D = 4%nat /\
    (2 <= length cs <= 4)%nat /\
    length (format_key A B C D pe cs t) = (24 + length pe + length cs)%nat.
Proof.
  intros Ht Hh Hlen Hd Hts.
  destruct (generate_membership_key_returns user_id tier_name d attrs st t h timestamp
              Ht Hh Hts) as (c & p & pe & Hc & Hp & Hpe & Hkey).
  cbv zeta in Hkey.
  pose proof (generate_unique_pattern_length _ _ _ Hp) as Hp12.
  pose proof (length_prefix _ _ (lookup_in _ _ _ Ht)) as Hpre.
  assert (HA : length (prefix t ++ slice None (Some 3) h) = 6%nat).
  { rewrite length_app, Hpre, length_slice_prefix by (unfold len; lia). reflexivity. }
  assert (HB : length (c :: slice None (Some 4) p) = 5%nat).
  { simpl. rewrite length_slice_prefix by (unfold len; lia). reflexivity. }
  assert (HC : length (encode_timestamp d) = 5%nat)
    by now rewrite (encode_timestamp_digits d Hd).
  assert (HD : length (slice (Some 4) (Some 8) p) = 4%nat).
  { rewrite length_slice_between by (unfold len; lia). reflexivity. }
  eexists _, _, _, _, pe, _. split; [exact Hkey|]. split; [exact Hpe|].
  repeat (split; [assumption|]).
  pose proof (length_calculate_checksum
                ((prefix t ++ slice None (Some 3) h) ++ (c :: slice None (Some 4) p) ++
                 encode_timestamp d ++ slice (Some 4) (Some 8) p ++ pe)) as Hcs.
  split; [exact Hcs|]. rewrite length_format_key, HA, HB, HC, HD. lia.
Qed.

(** The theorem at the key of ["alice123"], Archivist, 15 March 2024, with
    the stand-in library: 6 + 5 + 5 + 4 characters, the personal element
    ["AS"], the checksum ["191"] and four separators, 29 in all. *)
Lemma generated_key_layout_of_alice_smith :
  (valid_date date_2024_03_15 /\
   @create_user_hash ascii_only toy_digest (lit "alice123") = Ok (lit "B401EC")) /\
  exists A B C D pe cs,
    fst (@generate_membership_key ascii_only toy_digest counter_random fixed_clock
           (lit "alice123") (lit "Archivist") date_2024_03_15
           (Some [(lit "name", lit "Alice Smith")]) 0) =
      Ok (format_key A B C D pe cs archivist) /\
    @generate_personal_element ascii_only toy_digest
      (Some [(lit "name", lit "Alice Smith")]) (lit "alice123") = Ok pe /\
    length A = 6%nat /\ length B = 5%nat /\ length C = 5%nat /\ length D = 4%nat /\
    (2 <= length cs <= 4)%nat /\
    length (format_key A B C D pe cs archivist) = (24 + length pe + length cs)%nat.
Proof.
  assert (Hv : valid_date date_2024_03_15)
    by (repeat split; vm_compute; discriminate).
  split; [split; [exact Hv | reflexivity]|].
  exact (generated_key_layout ascii_only toy_digest counter_random fixed_clock
           (lit "alice123") (lit "Archivist") date_2024_03_15
           (Some [(lit "name", lit "Alice Smith")]) 0
           archivist (lit "B401EC") (lit "1710460800.0")
           eq_refl eq_refl eq_refl Hv eq_refl).
Defined.

(** ** The personal element, decoded *)

Section PersonalElement.
Context {U : Unicode} {H : Sha256} {R : Random} {K : Clock}.

(** What the decoder reports as personal element of a generated key it
    accepts: the last two characters of Segment D followed by the personal
    element. *)
Lemma personal_element_of_generated_key (user_id tier_name : str) (d : datetime)
  (attrs : option dict) (st : rng_state) (key decoded_id name : str) (lvl : Z)
  (date : option datetime) (per pe : str) :
  fst (generate_membership_key user_id tier_name d attrs st) = Ok key ->
  generate_personal_element attrs user_id = Ok pe ->
  validate_membership_key key = Ok (Valid decoded_id name lvl date per) ->
  exists D, length D = 4%nat /\ per = slice (Some (-2)) None (D ++ pe).
Proof.
  intros Hkey Hpe Hv.
  destruct (generate_membership_key_inv _ _ _ _ _ _ Hkey) as (t & h & ts & Ht & Hh & Hts).
  destruct (generate_membership_key_returns user_id tier_name d attrs st t h ts Ht Hh Hts)
    as (c & p & pe' & Hc & Hp & Hpe' & Hkey').
  rewrite Hpe in Hpe'. injection Hpe' as <-.
  rewrite Hkey in Hkey'. injection Hkey' as ->. cbv zeta in Hv.
  set (A := prefix t ++ slice None (Some 3) h) in *.
  set (B := c :: slice None (Some 4) p) in *.
  set (C := encode_timestamp d) in *.
  set (D := slice (Some 4) (Some 8) p) in *.
  set (cs := calculate_checksum (A ++ B ++ C ++ D ++ pe)) in *.
  pose proof (find_tier_format_key (upper tier_name) t (slice None (Some 3) h)
                B C D pe cs (lookup_in _ _ _ Ht)) as Hfind. fold A in Hfind.
  destruct (Nat.eq_dec (length (split (separator t) (format_key A B C D pe cs t))) 5)
    as [Hlen|Hlen].
  2:{ rewrite (validate_wrong_segment_count _ _ _ Hfind Hlen) in Hv. discriminate. }
  rewrite length_split, occurrences_format_key in Hlen.
  assert (Hsplit : split (separator t) (format_key A B C D pe cs t) = [A; B; C; D ++ pe; cs])
    by (apply split_format_key; apply occurrences_zero; lia).
  rewrite (validate_five_segments _ _ _ _ _ _ _ _ Hfind Hsplit) in Hv.
  destruct (negb _); [discriminate|].
  destruct (getitem B 0) as [x|e]; simpl in Hv; [|discriminate].
  destruct (index ascii_uppercase x) as [i|e]; simpl in Hv; [|discriminate].
  destruct (negb _); [discriminate|].
  injection Hv as _ _ _ _ <-.
  exists D. split; [|reflexivity].
  subst D. rewrite length_slice_between; [reflexivity | lia |].
  unfold len. rewrite (generate_unique_pattern_length _ _ _ Hp). lia.
Qed.

End PersonalElement.

(** The personal element the decoder reports for a generated key it
    accepts always has two characters, and it is the personal element the
    encoder wrote exactly when that one has two characters: for one of 0 or
    1 characters the decoder fills up with the end of Segment D, for a
    longer one it drops the beginning. *)
Theorem decoded_personal_element_has_two_characters
  (U : Unicode) (H : Sha256) (R : Random) (K : Clock)
  (user_id tier_name : str) (d : datetime) (attrs : option dict) (st : rng_state)
  (key decoded_id name : str) (lvl : Z) (date : option datetime) (per pe : str) :
  fst (generate_membership_key user_id tier_name d attrs st) = Ok key ->
  generate_personal_element attrs user_id = Ok pe ->
  validate_membership_key key = Ok (Valid decoded_id name lvl date per) ->
  length per = 2%nat /\ (per = pe <-> length pe = 2%nat).
Proof.
  intros Hkey Hpe Hv.
  destruct (personal_element_of_generated_key _ _ _ _ _ _ _ _ _ _ _ _ Hkey Hpe Hv)
    as (D & HD & ->).
  assert (Hlen : length (slice (Some (-2)) None (D ++ pe)) = 2%nat)
    by (apply length_slice_last_two_of_long; rewrite length_app; lia).
  split; [exact Hlen|]. split.
  - intros Heq. now rewrite Heq in Hlen.
  - apply slice_last_two_of_app.
Qed.

(** The theorem at the key of a member named ["Alice"], with the stand-in
    library: the encoder writes the personal element ["A"] and the decoder
    reports [">A"]. *)
Lemma decoded_personal_element_of_alice :
  let key := lit "ARKB40-ARST,-1830F-VWX>A-2317" in
  (fst (@generate_membership_key ascii_only toy_digest counter_random fixed_clock
          (lit "alice123") (lit "Archivist") date_2024_03_15
          (Some [(lit "name", lit "Alice")]) 0) = Ok key /\
   @generate_personal_element ascii_only toy_digest
     (Some [(lit "name", lit "Alice")]) (lit "alice123") = Ok (lit "A") /\
   @validate_membership_key ascii_only key =
     Ok (Valid (lit "user_B40") (lit "ARCHIVIST") 1 (Some date_2024_03_15) (lit ">A"))) /\
  (length (lit ">A") = 2%nat /\ (lit ">A" = lit "A" <-> length (lit "A") = 2%nat)).
Proof.
  intros key. split; [repeat split|].
  exact (decoded_personal_element_has_two_characters
           ascii_only toy_digest counter_random fixed_clock
           (lit "alice123") (lit "Archivist") date_2024_03_15
           (Some [(lit "name", lit "Alice")]) 0
           key (lit "user_B40") (lit "ARCHIVIST") 1 (Some date_2024_03_15)
           (lit ">A") (lit "A") eq_refl eq_refl eq_refl).
Defined.

(** ** From the encoder to the adapter *)

(** For a date that has a timestamp: when the separator of the tier stays
    out of the first eight characters of the pattern and out of the
    personal element, the adapter succeeds on the generated key and
    presents the tier the key was generated for. *)
Theorem adapter_presents_generated_key
  (U : Unicode) (H : Sha256) (R : Random) (K : Clock)
  (user_id tier_name : str) (d : datetime) (attrs user_data : option dict)
  (st : rng_state) (t : Tier) (h timestamp p pe : str) :
  lookup USER_TIERS (upper tier_name) = Some t ->
  create_user_hash user_id = Ok h ->
  valid_date d ->
  timestamp_str d = Ok timestamp ->
  fst (generate_unique_pattern (user_id ++ timestamp) st) = Ok p ->
  generate_personal_element attrs user_id = Ok pe ->
  contains (slice None (Some 4) p ++ slice (Some 4) (Some 8) p ++ pe) (separator t) = false ->
  exists key style colour,
    fst (generate_membership_key user_id tier_name d attrs st) = Ok key /\
    In (upper tier_name, (id t, style, colour)) tier_presentation /\
    generate_premium_qr_code key user_data =
      Ok (QrSuccess
            {| membershipKey := key;
               validationURL := lit "https://nexus.io/validate/" ++ key;
               tier := upper tier_name |}
            {| style := style;
               mainColor := colour;
               patternComplexity := 2 * id t;
               tierLevel := id t |}
            (upper tier_name) (id t)).
Proof.
  intros Ht Hh Hd Hts Hp Hpe Hsep.
  destruct (decode_of_encoded_key user_id tier_name d attrs st t h timestamp p pe
              Ht Hh Hd Hts Hp Hpe) as (key & Hkey & Hv).
  rewrite Hsep in Hv.
  destruct (adapter_on_valid_key key user_data _ _ _ _ _ Hv)
    as (style & colour & Hin & Hqr).
  now exists key, style, colour.
Qed.

(** The theorem at the key of ["alice123"], Archivist, 15 March 2024,
    named ["Alice Smith"], with the stand-in library. *)
Lemma adapter_presents_key_of_alice_smith :
  valid_date date_2024_03_15 /\
  exists key style colour,
    fst (@generate_membership_key ascii_only toy_digest counter_random fixed_clock
           (lit "alice123") (lit "Archivist") date_2024_03_15
           (Some [(lit "name", lit "Alice Smith")]) 0) = Ok key /\
    In (lit "ARCHIVIST", (1, style, colour)) tier_presentation /\
    @generate_premium_qr_code ascii_only key None =
      Ok (QrSuccess
            {| membershipKey := key;
               validationURL := lit "https://nexus.io/validate/" ++ key;
               tier := lit "ARCHIVIST" |}
            {| style := style;
               mainColor := colour;
               patternComplexity := 2 * 1;
               tierLevel := 1 |}
            (lit "ARCHIVIST") 1).
Proof.
  assert (Hv : valid_date date_2024_03_15)
    by (repeat split; vm_compute; discriminate).
  split; [exact Hv|].
  exact (adapter_presents_generated_key ascii_only toy_digest counter_random fixed_clock
           (lit "alice123") (lit "Archivist") date_2024_03_15
           (Some [(lit "name", lit "Alice Smith")]) None 0
           archivist (lit "B401EC") (lit "1710460800.0") (lit "RST,VWX>Z01#") (lit "AS")
           eq_refl eq_refl Hv eq_refl eq_refl eq_refl eq_refl).
Defined.

(** ** The rank letter *)

Lemma encode_tier_wraps (i : Z) : -25 <= i <= 0 -> encode_tier i = Ok (90 + i).
Proof.
  intros Hi.
  pose proof (below_by_enumeration 26
                (fun j => match encode_tier (- j) with
                          | Ok c => c =? 90 - j
                          | Raise _ => false
                          end) ltac:(vm_compute; reflexivity) (- i) ltac:(lia)) as Hj.
  cbv beta in Hj. replace (- - i) with i in Hj by lia.
  destruct (encode_tier i) as [c|e]; [|discriminate].
  apply Z.eqb_eq in Hj. f_equal. lia.
Qed.

Lemma encode_tier_outside (i : Z) : i < -25 \/ 26 < i -> encode_tier i = Raise IndexError.
Proof.
  intros Hi. unfold encode_tier, getitem.
  change (len ascii_uppercase) with 26.
  destruct (i - 1 <? 0) eqn:E.
  - replace (0 <=? i - 1 + 26) with false by (symmetry; apply Z.leb_gt; lia).
    reflexivity.
  - replace (i - 1 <? 26) with false by (symmetry; apply Z.ltb_ge; lia).
    now rewrite andb_false_r.
Qed.

(** The rank letter of a rank from 1 to 26 is the capital letter at that
    place of the alphabet, and the decoder's lookup gives the rank back; a
    rank from -25 to 0 does not fail but counts from the end of the
    alphabet, rank 0 giving ["Z"]; every other rank raises [IndexError]. *)
Theorem rank_letter_bounds (i : Z) :
  encode_tier i =
    (if (1 <=? i) && (i <=? 26) then Ok (64 + i)
     else if (-25 <=? i) && (i <=? 0) then Ok (90 + i)
     else Raise IndexError)
  /\ (forall c, encode_tier i = Ok c ->
        index ascii_uppercase c = Ok ((i - 1) mod 26)).
Proof.
  destruct ((1 <=? i) && (i <=? 26)) eqn:E1.
  - rewrite encode_tier_inside by lia. split; [reflexivity|].
    intros c Hc. assert (c = 64 + i) by congruence. subst c.
    rewrite index_uppercase_inside by lia.
    f_equal. rewrite Z.mod_small by lia. lia.
  - destruct ((-25 <=? i) && (i <=? 0)) eqn:E2.
    + rewrite encode_tier_wraps by lia. split; [reflexivity|].
      intros c Hc. assert (c = 90 + i) by congruence. subst c.
      rewrite index_uppercase_inside by lia.
      f_equal. replace (i - 1) with (i + 25 + (-1) * 26) by lia.
      rewrite Z_mod_plus_full, Z.mod_small by lia. lia.
    + rewrite encode_tier_outside by lia. split; [reflexivity | discriminate].
Qed.

(** ** The personal element of a name *)

Lemma split_ws_from_chars (cur s w : str) (c : char) :
  In w (split_ws_from cur s) -> In c w -> In c cur \/ In c s.
Proof.
  revert cur. induction s as [|x s IH]; intros cur Hw Hc; simpl in Hw.
  - destruct cur as [|y cur]; [contradiction|].
    destruct Hw as [<-|[]]. left. now apply in_rev.
  - destruct (isspace x).
    + destruct cur as [|y cur].
      * destruct (IH [] Hw Hc) as [[]|Hs]. right. now right.
      * destruct Hw as [<-|Hw]; [left; now apply in_rev|].
        destruct (IH [] Hw Hc) as [[]|Hs]. right. now right.
    + destruct (IH (x :: cur) Hw Hc) as [[<-|Hcur]|Hs].
      * right. now left.
      * now left.
      * right. now right.
Qed.

Lemma split_ws_from_none (cur s : str) :
  split_ws_from cur s = [] <-> cur = [] /\ forallb isspace s = true.
Proof.
  revert cur. induction s as [|x s IH]; intros cur; simpl.
  - destruct cur; split; try tauto; try discriminate. intros [Hc _]. discriminate.
  - destruct (isspace x); simpl.
    + destruct cur as [|y cur]; [apply IH|].
      split; [discriminate | intros [Hc _]; discriminate].
    + rewrite IH. split; [intros [Hc _]; discriminate | intros [_ Hf]; discriminate].
Qed.

Section Names.
Context {U : Unicode} {H : Sha256}.

Lemma initials_of_ascii_words (words : list str) :
  Forall (fun w => w <> [] /\ is_ascii (hd 0 w) = true) words ->
  mapM (fun p => c <- getitem p 0 ;; Ok (upper [c]))%result words =
    Ok (map (fun w => [ascii_upper (hd 0 w)]) words).
Proof.
  induction 1 as [|w words [Hw Ha] _ IH]; [reflexivity|]. simpl.
  destruct w as [|c w]; [contradiction|].
  change (getitem (c :: w) 0) with (Ok (A := char) c). simpl rbind.
  rewrite IH. simpl in Ha. unfold upper. simpl forallb. rewrite Ha. reflexivity.
Qed.

Lemma concat_singletons {A B} (f : A -> B) (l : list A) :
  concat (map (fun x => [f x]) l) = map f l.
Proof. induction l as [|x l IH]; simpl; [reflexivity | now rewrite IH]. Qed.

Lemma personal_element_of_name (attrs : option dict) (user_id full_name : str) :
  match attrs with Some a => lookup a (lit "name") | None => None end = Some full_name ->
  forallb is_ascii full_name = true ->
  generate_personal_element attrs user_id =
    Ok (map (fun w => ascii_upper (hd 0 w)) (firstn 2 (split_ws full_name))).
Proof.
  intros Hname Hascii. unfold generate_personal_element. rewrite Hname.
  rewrite initials_of_ascii_words.
  - simpl. now rewrite concat_singletons.
  - apply Forall_forall. intros w Hw.
    assert (Hin : In w (split_ws full_name)).
    { rewrite <- (firstn_skipn 2 (split_ws full_name)). apply in_or_app. now left. }
    pose proof (split_ws_from_words [] full_name) as Hwords.
    rewrite Forall_forall in Hwords. specialize (Hwords w Hin).
    split; [exact Hwords|].
    destruct w as [|c w]; [contradiction|]. simpl.
    destruct (split_ws_from_chars [] full_name (c :: w) c Hin (or_introl eq_refl))
      as [[]|Hc].
    rewrite forallb_forall in Hascii. now apply Hascii.
Qed.

End Names.

(** For a member with an ASCII name the personal element is made of the
    first character of each of the first two words of the name, in upper
    case: it has at most two characters, and it is empty exactly when the
    name holds nothing but white space. *)
Theorem personal_element_is_the_initials
  (U : Unicode) (H : Sha256) (attrs : option dict) (user_id full_name : str) :
  match attrs with Some a => lookup a (lit "name") | None => None end = Some full_name ->
  forallb is_ascii full_name = true ->
  exists pe,
    generate_personal_element attrs user_id = Ok pe /\
    pe = map (fun w => ascii_upper (hd 0 w)) (firstn 2 (split_ws full_name)) /\
    (length pe <= 2)%nat /\
    (pe = [] <-> forallb isspace full_name = true).
Proof.
  intros Hname Hascii. eexists. split; [exact (personal_element_of_name _ _ _ Hname Hascii)|].
  split; [reflexivity|]. split.
  - rewrite length_map, length_firstn. lia.
  - pose proof (split_ws_from_none [] full_name) as Hnone. fold (split_ws full_name) in Hnone.
    destruct (split_ws full_name) as [|w ws].
    + split; [intros _; now apply Hnone | reflexivity].
    + split; [discriminate|]. intros Hsp.
      assert (Hnil : w :: ws = []) by (apply Hnone; tauto). discriminate.
Qed.

(** The theorem at the name ["Alice Smith"]. *)
Lemma personal_element_of_alice_smith :
  exists pe,
    @generate_personal_element ascii_only toy_digest
      (Some [(lit "name", lit "Alice Smith")]) (lit "alice123") = Ok pe /\
    pe = lit "AS" /\
    (length pe <= 2)%nat /\
    (pe = [] <-> forallb isspace (lit "Alice Smith") = true).
Proof.
  exact (personal_element_is_the_initials ascii_only toy_digest
           (Some [(lit "name", lit "Alice Smith")]) (lit "alice123") (lit "Alice Smith")
           eq_refl eq_refl).
Defined.

(** ** The user hash *)

Lemma length_hexdigest (bytes : list Z) : length (hexdigest bytes) = (2 * length bytes)%nat.
Proof.
  unfold hexdigest. induction bytes as [|b bytes IH]; [reflexivity|].
  simpl. rewrite IH. lia.
Qed.

(** The user hash is made of upper-case hexadecimal digits, two for each
    byte of the digest and six at most: exactly six for a digest of three
    bytes or more. *)
Theorem user_hash_shape (U : Unicode) (H : Sha256) (user_id h : str) (bytes : list Z) :
  encode user_id = Ok bytes ->
  create_user_hash user_id = Ok h ->
  forallb is_hex_upper h = true /\
  length h = Nat.min 6 (2 * length (sha256 bytes)).
Proof.
  intros Hb Hh. split; [exact (create_user_hash_is_hex _ _ Hh)|].
  unfold create_user_hash in Hh. rewrite Hb in Hh. simpl in Hh. injection Hh as <-.
  pose proof (forallb_slice _ None (Some 6) _ (hexdigest_is_hex (sha256 bytes))) as Hs.
  rewrite (upper_ascii _ (hex_lower_is_ascii _ Hs)), length_map.
  unfold slice, clamp, len. change (6 <? 0) with false. cbv iota.
  rewrite Z.sub_0_r. simpl skipn. rewrite length_firstn, length_hexdigest. lia.
Qed.

(** The theorem at ["alice123"] with the stand-in digest of 32 bytes. *)
Lemma user_hash_shape_of_alice :
  forallb is_hex_upper (lit "B401EC") = true /\
  length (lit "B401EC") =
    Nat.min 6 (2 * length (@sha256 toy_digest (lit "alice123"))).
Proof.
  exact (user_hash_shape ascii_only toy_digest (lit "alice123") (lit "B401EC")
           (lit "alice123") eq_refl eq_refl).
Defined.

(** ** What the decoder answers to a generated key *)

Section GeneratedKeys.
Context {U : Unicode} {H : Sha256} {R : Random} {K : Clock}.

Lemma validate_generated_key (user_id tier_name : str) (d : datetime)
  (attrs : option dict) (st : rng_state) (key : str) :
  fst (generate_membership_key user_id tier_name d attrs st) = Ok key ->
  exists t A D pe,
    lookup USER_TIERS (upper tier_name) = Some t /\
    validate_membership_key key =
      if Nat.eqb (occurrences (separator t) key) 4
      then Ok (Valid (lit "user_" ++ slice (Some 3) None A) (upper tier_name) (id t)
                 (decode_timestamp (encode_timestamp d))
                 (slice (Some (-2)) None (D ++ pe)))
      else Ok (Invalid (lit "Invalid key structure")).
Proof.
  intros Hkey.
  destruct (generate_membership_key_inv _ _ _ _ _ _ Hkey) as (t & h & ts & Ht & Hh & Hts).
  destruct (generate_membership_key_returns user_id tier_name d attrs st t h ts Ht Hh Hts)
    as (c & p & pe & Hc & Hp & Hpe & Hkey').
  rewrite Hkey in Hkey'. injection Hkey' as ->. cbv zeta.
  set (A := prefix t ++ slice None (Some 3) h).
  set (B := c :: slice None (Some 4) p).
  set (C := encode_timestamp d).
  set (D := slice (Some 4) (Some 8) p).
  set (cs := calculate_checksum (A ++ B ++ C ++ D ++ pe)).
  pose proof (find_tier_format_key (upper tier_name) t (slice None (Some 3) h)
                B C D pe cs (lookup_in _ _ _ Ht)) as Hfind. fold A in Hfind.
  exists t, A, D, pe. split; [exact Ht|].
  change (validate_membership_key (format_key A B C D pe cs t) =
          if Nat.eqb (occurrences (separator t) (format_key A B C D pe cs t)) 4
          then Ok (Valid (lit "user_" ++ slice (Some 3) None A) (upper tier_name) (id t)
                     (decode_timestamp C) (slice (Some (-2)) None (D ++ pe)))
          else Ok (Invalid (lit "Invalid key structure"))).
  destruct (Nat.eqb_spec (occurrences (separator t) (format_key A B C D pe cs t)) 4)
    as [Hocc|Hocc].
  - rewrite occurrences_format_key in Hocc.
    assert (Hsplit : split (separator t) (format_key A B C D pe cs t) =
                       [A; B; C; D ++ pe; cs])
      by (apply split_format_key; apply occurrences_zero; lia).
    exact (validate_accepts _ _ _ A (slice None (Some 4) p) C (D ++ pe) cs c
             Hfind Hsplit eq_refl Hc).
  - apply (validate_wrong_segment_count _ _ _ Hfind). rewrite length_split. lia.
Qed.

End GeneratedKeys.

(** The decoder never raises on a generated key and never answers
    [Unknown key format], [Invalid checksum] or [Tier identifier mismatch]:
    a key that holds the separator of its tier four times is valid, with
    the upper-cased tier name and the rank of the tier, and any other key
    is answered with [Invalid key structure]. *)
Theorem generated_key_is_valid_or_misstructured
  (U : Unicode) (H : Sha256) (R : Random) (K : Clock)
  (user_id tier_name : str) (d : datetime) (attrs : option dict) (st : rng_state)
  (key : str) :
  fst (generate_membership_key user_id tier_name d attrs st) = Ok key ->
  exists t,
    lookup USER_TIERS (upper tier_name) = Some t /\
    if Nat.eqb (occurrences (separator t) key) 4
    then exists decoded_id date personal,
           validate_membership_key key =
             Ok (Valid decoded_id (upper tier_name) (id t) date personal)
    else validate_membership_key key = Ok (Invalid (lit "Invalid key structure")).
Proof.
  intros Hkey.
  destruct (validate_generated_key _ _ _ _ _ _ Hkey) as (t & A & D & pe & Ht & Hv).
  exists t. split; [exact Ht|].
  destruct (Nat.eqb _ 4); [eauto | exact Hv].
Qed.

(** The theorem at the key of a member named ["-"], which holds five
    separators. *)
Lemma generated_key_with_five_separators :
  let key := lit "ARKB40-ARST,-1830F-VWX>--B23" in
  fst (@generate_membership_key ascii_only toy_digest counter_random fixed_clock
         (lit "alice123") (lit "Archivist") date_2024_03_15
         (Some [(lit "name", lit "-")]) 0) = Ok key /\
  exists t,
    lookup USER_TIERS (@upper ascii_only (lit "Archivist")) = Some t /\
    if Nat.eqb (occurrences (separator t) key) 4
    then exists decoded_id date personal,
           @validate_membership_key ascii_only key =
             Ok (Valid decoded_id (@upper ascii_only (lit "Archivist")) (id t) date personal)
    else @validate_membership_key ascii_only key =
           Ok (Invalid (lit "Invalid key structure")).
Proof.
  intros key. split; [reflexivity|].
  exact (generated_key_is_valid_or_misstructured
           ascii_only toy_digest counter_random fixed_clock
           (lit "alice123") (lit "Archivist") date_2024_03_15
           (Some [(lit "name", lit "-")]) 0 key eq_refl).
Defined.

(** The decoder answers [Unknown key format] exactly when no row of the
    table has both its prefix at the start of the key and its separator in
    the key: a key with the prefix of one tier and only the separators of
    another is unknown, not a key of either. *)
Theorem decoder_unknown_format_exactly (U : Unicode) (key : str) :
  validate_membership_key key = Ok (Invalid (lit "Unknown key format")) <->
  forall k t, In (k, t) USER_TIERS ->
    startswith key (prefix t) = true -> contains key (separator t) = false.
Proof.
  split.
  - intros Hv k t Hin Hs.
    destruct (contains key (separator t)) eqn:Hc; [|reflexivity]. exfalso.
    pose proof (find_tier_by_prefix key k t Hin Hs Hc) as Hf.
    destruct (Nat.eq_dec (length (split (separator t) key)) 5) as [Hlen|Hlen].
    2:{ rewrite (validate_wrong_segment_count _ _ _ Hf Hlen) in Hv. discriminate. }
    destruct (split_five _ _ Hlen) as (A & B & C & S4 & cs & Hsplit).
    rewrite (validate_five_segments _ _ _ _ _ _ _ _ Hf Hsplit) in Hv.
    destruct (negb _); [discriminate|].
    destruct (getitem B 0) as [c|e]; simpl in Hv; [|discriminate].
    destruct (index ascii_uppercase c) as [i|e]; simpl in Hv; [|discriminate].
    destruct (negb _); discriminate.
  - intros Hnone. unfold validate_membership_key.
    destruct (find_tier key) as [[name t]|] eqn:Hf; [|reflexivity].
    apply find_tier_some in Hf as (Hin & Hs & Hc).
    rewrite (Hnone _ _ Hin Hs) in Hc. discriminate.
Qed.
